(** * QuixBugs code-repair agent: a shallow embedding of the repair loop

    The development follows [src/tools.py] (the tools that load the code,
    run the tests, apply a patch and analyse the code) and
    [src/agent_graph.py] (the helpers, the seven graph nodes, the router and
    the compiled graph).

    Conventions of the embedding:
    - Python [str] is [string]; the string methods below follow CPython on
      ASCII text (code points below 128), where whitespace is the set
      9-13, 28-32 and case mapping touches the 26 letters only.
    - Python [int] is [Z].
    - An exception is a value of [exn] (class and message); a [try] block is
      a term of type [exn + A].
    - The file system is a finite map from paths to entries.  The
      embedding covers the sessions in which the write of [ApplyPatchTool]
      goes through once the file has been read and the line number checked;
      a write that raises is outside it, and no statement below is about
      what the file holds after such a write.
    - The test harness and the language model are external and are given by
      an environment that answers the n-th call.
    - [exec] iterates the graph's super-steps without a bound; [invoke] is
      the call of the compiled graph, under LangGraph's default recursion
      limit.
    - Printing the reports has no effect on the state and is left out. *)

From Stdlib Require Import ZArith NArith Ascii String DecimalString Bool Lia.
From stdpp Require Import base option list gmap strings.

Local Open Scope string_scope.
Local Open Scope Z_scope.

(** ** Python string primitives *)

Module PyStr.

Definition nl_char : ascii := ascii_of_nat 10.
Definition cr_char : ascii := ascii_of_nat 13.
Definition space_char : ascii := ascii_of_nat 32.
Definition dquote_char : ascii := ascii_of_nat 34.
Definition backtick_char : ascii := ascii_of_nat 96.

Definition nl : string := String nl_char "".
Definition dquote : string := String dquote_char "".
Definition fence : string :=
  String backtick_char (String backtick_char (String backtick_char "")).

(** [str.isspace] on one ASCII character: TAB, LF, VT, FF, CR, FS, GS, RS,
    US and SPACE. *)
Definition isspace (c : ascii) : bool :=
  let n := N_of_ascii c in
  ((9 <=? n) && (n <=? 13) || (28 <=? n) && (n <=? 32))%N.

Definition lower_char (c : ascii) : ascii :=
  let n := N_of_ascii c in
  if ((65 <=? n) && (n <=? 90))%N then ascii_of_N (n + 32) else c.

Definition upper_char (c : ascii) : ascii :=
  let n := N_of_ascii c in
  if ((97 <=? n) && (n <=? 122))%N then ascii_of_N (n - 32) else c.

Definition isdigit (c : ascii) : bool :=
  let n := N_of_ascii c in ((48 <=? n) && (n <=? 57))%N.

Fixpoint lower (s : string) : string :=
  match s with
  | "" => ""
  | String c s' => String (lower_char c) (lower s')
  end.

Fixpoint upper (s : string) : string :=
  match s with
  | "" => ""
  | String c s' => String (upper_char c) (upper s')
  end.

Fixpoint lstrip (s : string) : string :=
  match s with
  | "" => ""
  | String c s' => if isspace c then lstrip s' else s
  end.

Fixpoint rstrip (s : string) : string :=
  match s with
  | "" => ""
  | String c s' =>
      match rstrip s' with
      | "" => if isspace c then "" else String c ""
      | r => String c r
      end
  end.

Definition strip (s : string) : string := rstrip (lstrip s).

(** No character of [p] is whitespace. *)
Fixpoint no_space (p : string) : bool :=
  match p with
  | "" => true
  | String c p' => negb (isspace c) && no_space p'
  end.

(** [s.startswith(p)] *)
Fixpoint startswith (s p : string) : bool :=
  match p, s with
  | "", _ => true
  | String _ _, "" => false
  | String a p', String b s' => if Ascii.eqb a b then startswith s' p' else false
  end.

(** [s.endswith(p)] *)
Fixpoint endswith (s p : string) : bool :=
  String.eqb s p ||
  match s with
  | "" => false
  | String _ s' => endswith s' p
  end.

(** [sub in s] *)
Fixpoint contains (sub s : string) : bool :=
  startswith s sub ||
  match s with
  | "" => false
  | String _ s' => contains sub s'
  end.

(** [' ' * n] *)
Fixpoint spaces (n : nat) : string :=
  match n with
  | O => ""
  | S n' => String space_char (spaces n')
  end.

(** [s.split(c)] for a one-character separator. *)
Fixpoint split_char (c : ascii) (s : string) : list string :=
  match s with
  | "" => [""]
  | String x s' =>
      if Ascii.eqb x c then "" :: split_char c s'
      else match split_char c s' with
           | h :: t => String x h :: t
           | [] => [String x ""]
           end
  end.

(** Line boundaries of [str.splitlines] among ASCII characters, apart from
    the pair CR LF which is handled in [splitlines]: LF, VT, FF, CR, FS, GS,
    RS. *)
Definition is_linebreak (c : ascii) : bool :=
  let n := N_of_ascii c in
  ((10 <=? n) && (n <=? 13) || (28 <=? n) && (n <=? 30))%N.

(** [s.splitlines()] (terminators dropped, no empty last line). *)
Fixpoint splitlines (s : string) : list string :=
  match s with
  | "" => []
  | String c s' =>
      if Ascii.eqb c cr_char then
        match s' with
        | String c2 s'' =>
            if Ascii.eqb c2 nl_char then "" :: splitlines s''
            else "" :: splitlines s'
        | "" => "" :: splitlines s'
        end
      else if is_linebreak c then "" :: splitlines s'
      else match splitlines s' with
           | h :: t => String c h :: t
           | [] => [String c ""]
           end
  end.

(** The text a file opened in text mode delivers: CR LF and a lone CR both
    read as LF (universal newlines). *)
Fixpoint universal_newlines (s : string) : string :=
  match s with
  | "" => ""
  | String c s' =>
      if Ascii.eqb c cr_char then
        match s' with
        | String c2 s'' =>
            if Ascii.eqb c2 nl_char then String nl_char (universal_newlines s'')
            else String nl_char (universal_newlines s')
        | "" => String nl_char (universal_newlines s')
        end
      else String c (universal_newlines s')
  end.

(** [f.readlines()] on the text read: lines keep their LF. *)
Fixpoint readlines (s : string) : list string :=
  match s with
  | "" => []
  | String c s' =>
      if Ascii.eqb c nl_char then nl :: readlines s'
      else match readlines s' with
           | h :: t => String c h :: t
           | [] => [String c ""]
           end
  end.

(** [''.join(lines)] *)
Definition join (lines : list string) : string := String.concat "" lines.

(** [str(n)] for an integer. *)
Definition str_of_Z (n : Z) : string := NilZero.string_of_int (Z.to_int n).

(** [int(s)] on a run of ASCII digits. *)
Definition digit_val (c : ascii) : Z := Z.of_N (N_of_ascii c) - 48.

Fixpoint int_of_digits_from (acc : Z) (s : string) : Z :=
  match s with
  | "" => acc
  | String c s' => int_of_digits_from (10 * acc + digit_val c) s'
  end.

Definition int_of_digits (s : string) : Z := int_of_digits_from 0 s.

(** [s[-n:]] for a positive [n]. *)
Definition last_chars (n : nat) (s : string) : string :=
  let len := String.length s in
  if (len <=? n)%nat then s else String.substring (len - n) n s.

(** [repr(s)] of a string: single quotes unless the text holds a single
    quote and no double quote; the backslash, the chosen quote, TAB, LF and
    CR are escaped, other control characters are written [\xhh]. *)
Definition backslash_char : ascii := ascii_of_nat 92.
Definition squote_char : ascii := ascii_of_nat 39.

Definition hex_digit (n : N) : ascii :=
  if (n <? 10)%N then ascii_of_N (48 + n) else ascii_of_N (87 + n).

Definition repr_char (q c : ascii) : string :=
  let n := N_of_ascii c in
  if Ascii.eqb c backslash_char then String backslash_char (String backslash_char "")
  else if Ascii.eqb c q then String backslash_char (String q "")
  else if (n =? 9)%N then String backslash_char "t"
  else if (n =? 10)%N then String backslash_char "n"
  else if (n =? 13)%N then String backslash_char "r"
  else if ((n <? 32) || (n =? 127))%N then
    String backslash_char
      (String "x" (String (hex_digit (n / 16)) (String (hex_digit (n mod 16)) "")))
  else String c "".

Fixpoint repr_body (q : ascii) (s : string) : string :=
  match s with
  | "" => ""
  | String c s' => repr_char q c ++ repr_body q s'
  end.

Definition py_repr (s : string) : string :=
  let q := if contains (String squote_char "") s
              && negb (contains (String dquote_char "") s)
           then dquote_char else squote_char in
  String q (repr_body q s ++ String q "").

(** [f"{n:3d}"]: right-aligned in a field of width 3. *)
Definition fmt_3d (n : Z) : string :=
  let t := str_of_Z n in
  spaces (3 - String.length t) ++ t.

End PyStr.

(** ** The fragment of [re] used by the line patterns

    The patterns of [extract_error_line_number] are sequences of literal
    characters, one [[^c]+] and one capture group [(\d+)].  [match_here]
    is a backtracking matcher anchored at the start of the text, with greedy
    [+]; [search] is [re.search]: the leftmost position where the pattern
    matches.  Both return the text of group 1. *)

Module Re.
Import PyStr.

Inductive atom :=
| Chr (c : ascii)        (* a literal character *)
| Digit                  (* \d *)
| NotChr (c : ascii).    (* [^c] *)

Inductive item :=
| One (a : atom)
| Plus (a : atom)        (* a+ *)
| GroupPlus (a : atom).  (* (a+), the capture group *)

(** Matching one character; [ic] is [re.IGNORECASE]. *)
Definition atom_match (ic : bool) (a : atom) (c : ascii) : bool :=
  match a with
  | Chr x => if ic then Ascii.eqb (lower_char x) (lower_char c) else Ascii.eqb x c
  | Digit => isdigit c
  | NotChr x =>
      negb (if ic then Ascii.eqb (lower_char x) (lower_char c) else Ascii.eqb x c)
  end.

(** [a+] followed by the continuation [k]: longest run first, then shorter
    ones. *)
Fixpoint plus_then (ic : bool) (a : atom) (k : string -> option string)
    (s : string) : option string :=
  match s with
  | "" => None
  | String c s' =>
      if atom_match ic a c then
        match plus_then ic a k s' with
        | Some r => Some r
        | None => k s'
        end
      else None
  end.

(** [(a+)] followed by [k]; the result is the text the group consumed. *)
Fixpoint group_then (ic : bool) (a : atom) (k : string -> option string)
    (s : string) : option string :=
  match s with
  | "" => None
  | String c s' =>
      if atom_match ic a c then
        match group_then ic a k s' with
        | Some cap => Some (String c cap)
        | None => match k s' with
                  | Some _ => Some (String c "")
                  | None => None
                  end
        end
      else None
  end.

Fixpoint match_here (ic : bool) (p : list item) (s : string) {struct p}
    : option string :=
  match p with
  | [] => Some ""
  | One a :: p' =>
      match s with
      | "" => None
      | String c s' => if atom_match ic a c then match_here ic p' s' else None
      end
  | Plus a :: p' => plus_then ic a (match_here ic p') s
  | GroupPlus a :: p' => group_then ic a (match_here ic p') s
  end.

Fixpoint search (ic : bool) (p : list item) (s : string) : option string :=
  match match_here ic p s with
  | Some cap => Some cap
  | None =>
      match s with
      | "" => None
      | String _ s' => search ic p s'
      end
  end.

Fixpoint lit (s : string) : list item :=
  match s with
  | "" => []
  | String c s' => One (Chr c) :: lit s'
  end.

End Re.

(** ** Exceptions and the outside world *)

Inductive exn :=
| FileNotFoundError (msg : string)
| OSError (msg : string)
| ValueError (msg : string)
| IndexError (msg : string)
| Exception_ (msg : string).

(** [str(e)] *)
Definition str_of_exn (e : exn) : string :=
  match e with
  | FileNotFoundError m | OSError m | ValueError m | IndexError m
  | Exception_ m => m
  end.

(** What a path holds: a file with its raw text, or something [open] cannot
    read (with the message of the error it raises). A path outside the map
    does not exist. *)
Inductive entry :=
| File (raw : string)
| Unreadable (oserr : string).

(** Outcome of [subprocess.run] on the test harness. *)
Inductive proc_result :=
| Completed (stdout stderr : string)
| TimeoutExpired
| RunFailed (msg : string).

(** Outcome of [gemini.invoke]. *)
Inductive llm_result :=
| Response (content : string)
| LlmRaises (msg : string).

(** ** [src/tools.py] *)

Module Tools.
Import PyStr.

(** [LoadCodeTool.__call__] *)
Definition LoadCodeTool_call (fs : gmap string entry) (path : string)
    : exn + string :=
  match fs !! path with
  | Some (File raw) => inr (universal_newlines raw)
  | None => inl (FileNotFoundError ("Could not find file: " ++ path))
  | Some (Unreadable e) =>
      inl (Exception_ ("Error reading file " ++ path ++ ": " ++ e))
  end.

(** [RunTestsTool.__call__], given what the subprocess did. *)
Definition RunTestsTool_call (r : proc_result) : string :=
  match r with
  | Completed stdout stderr =>
      let output := stdout ++ stderr in
      if String.eqb (strip output) "" then "No test output generated" else output
  | TimeoutExpired => "ERROR: Test execution timed out after 30 seconds"
  | RunFailed m => "ERROR: Failed to run tests - " ++ m
  end.

(** The indentation rule of [ApplyPatchTool.__call__] (lines 61-70): the
    line that replaces [original_line]. *)
Definition original_indent_of (original_line : string) : nat :=
  (String.length original_line - String.length (lstrip original_line))%nat.

Definition indent_new_line (original_line new_line : string) : string :=
  let original_indent := original_indent_of original_line in
  let new_line :=
    if negb (String.eqb (strip new_line) "")
       && negb (startswith new_line (spaces original_indent))
    then spaces original_indent ++ strip new_line
    else new_line in
  if negb (endswith new_line nl) then new_line ++ nl else new_line.

(** The body of the [try] of [ApplyPatchTool.__call__]: the result and the
    file system afterwards. *)
Definition apply_patch_body (fs : gmap string entry) (file_path : string)
    (line_no : Z) (new_line : string) : (exn + string) * gmap string entry :=
  match fs !! file_path with
  | None =>
      (inl (FileNotFoundError
              ("[Errno 2] No such file or directory: " ++ py_repr file_path)), fs)
  | Some (Unreadable e) => (inl (OSError e), fs)
  | Some (File raw) =>
      let lines := readlines (universal_newlines raw) in
      if (line_no <? 1) || (Z.of_nat (length lines) <? line_no) then
        (inl (ValueError ("Line number " ++ str_of_Z line_no
                          ++ " is out of range (1-"
                          ++ str_of_Z (Z.of_nat (length lines)) ++ ")")), fs)
      else
        match lines !! Z.to_nat (line_no - 1) with
        | None => (inl (IndexError "list index out of range"), fs)
        | Some original_line =>
            let lines' :=
              <[Z.to_nat (line_no - 1) := indent_new_line original_line new_line]>
                lines in
            (inr (join lines'), <[file_path := File (join lines')]> fs)
        end
  end.

(** [ApplyPatchTool.__call__]: every exception of the body is wrapped. *)
Definition ApplyPatchTool_call (fs : gmap string entry) (file_path : string)
    (line_no : Z) (new_line : string) : (exn + string) * gmap string entry :=
  match apply_patch_body fs file_path line_no new_line with
  | (inl e, fs') =>
      (inl (Exception_ ("Error applying patch to " ++ file_path ++ " at line "
                        ++ str_of_Z line_no ++ ": " ++ str_of_exn e)), fs')
  | (inr code, fs') => (inr code, fs')
  end.

(** The dict returned by [get_function_context]. *)
Record FunctionContext := mkFunctionContext {
  function_name : option string;
  function_start_line : option Z;
  error_line : Z;
  context_lines : list string;
  context_start_line : Z
}.

(** [s.replace(pat, '')] for a non-empty [pat]; [skip] counts the characters
    of an occurrence still to drop. *)
Fixpoint remove_all_from (pat : string) (skip : nat) (s : string) : string :=
  match s with
  | "" => ""
  | String c s' =>
      match skip with
      | S k => remove_all_from pat k s'
      | O => if startswith s pat
             then remove_all_from pat (String.length pat - 1) s'
             else String c (remove_all_from pat 0 s')
      end
  end.

Definition remove_all (pat s : string) : string := remove_all_from pat 0 s.

(** [line.split('(')[0].replace('def ', '').strip()] *)
Definition def_name (line : string) : string :=
  strip (remove_all "def " (hd "" (split_char "("%char line))).

(** The upward scan [for i in range(line_no - 1, -1, -1)]; [k] is [i + 1]. *)
Fixpoint find_def (lines : list string) (k : nat) : exn + option (Z * string) :=
  match k with
  | O => inr None
  | S i =>
      match lines !! i with
      | None => inl (IndexError "list index out of range")
      | Some l =>
          let line := strip l in
          if startswith line "def "
          then inr (Some (Z.of_nat i + 1, def_name line))
          else find_def lines i
      end
  end.

(** [lines[start:stop]] for [start >= 0]; a negative [stop] counts from the
    end. *)
Definition py_slice (lines : list string) (start stop : Z) : list string :=
  let len := Z.of_nat (length lines) in
  let stop' := if stop <? 0 then Z.max 0 (len + stop) else Z.min stop len in
  take (Z.to_nat (stop' - start)) (drop (Z.to_nat start) lines).

(** [CodeAnalysisTool.get_function_context] *)
Definition get_function_context (code : string) (line_no : Z)
    : exn + FunctionContext :=
  let lines := splitlines code in
  match find_def lines (Z.to_nat line_no) with
  | inl e => inl e
  | inr found =>
      let context_start := Z.max 0 (line_no - 5) in
      let context_end := Z.min (Z.of_nat (length lines)) (line_no + 5) in
      inr {| function_name := snd <$> found;
             function_start_line := fst <$> found;
             error_line := line_no;
             context_lines := py_slice lines context_start context_end;
             context_start_line := context_start + 1 |}
  end.

End Tools.

(** ** [src/agent_graph.py]: state, helpers, nodes and routing *)

Module Agent.
Import PyStr Re Tools.

(** [APRState]. [function_context] is [None] for the empty dict the session
    starts with. *)
Record APRState := mkAPRState {
  file_path : string;
  original_code : string;
  current_code : string;
  error_line_no : Z;
  patch_line : string;
  test_output : string;
  tests_passed : bool;
  attempts : Z;
  max_attempts : Z;
  success : bool;
  error_message : string;
  function_context : option FunctionContext
}.

(** [{**state, key: value}] for the keys the nodes write. *)
Definition set_codes (s : APRState) (code : string) : APRState :=
  mkAPRState (file_path s) code code (error_line_no s) (patch_line s)
    (test_output s) (tests_passed s) (attempts s) (max_attempts s) (success s)
    (error_message s) (function_context s).

Definition set_current_code (s : APRState) (code : string) : APRState :=
  mkAPRState (file_path s) (original_code s) code (error_line_no s)
    (patch_line s) (test_output s) (tests_passed s) (attempts s)
    (max_attempts s) (success s) (error_message s) (function_context s).

Definition set_localized (s : APRState) (out : string) (line : Z)
    (fc : FunctionContext) (passed : bool) : APRState :=
  mkAPRState (file_path s) (original_code s) (current_code s) line
    (patch_line s) out passed (attempts s) (max_attempts s) (success s)
    (error_message s) (Some fc).

Definition set_patch (s : APRState) (line : string) (n : Z) : APRState :=
  mkAPRState (file_path s) (original_code s) (current_code s)
    (error_line_no s) line (test_output s) (tests_passed s) n
    (max_attempts s) (success s) (error_message s) (function_context s).

Definition set_validated (s : APRState) (out : string) (passed : bool)
    : APRState :=
  mkAPRState (file_path s) (original_code s) (current_code s)
    (error_line_no s) (patch_line s) out passed (attempts s) (max_attempts s)
    (success s) (error_message s) (function_context s).

Definition set_success (s : APRState) (b : bool) : APRState :=
  mkAPRState (file_path s) (original_code s) (current_code s)
    (error_line_no s) (patch_line s) (test_output s) (tests_passed s)
    (attempts s) (max_attempts s) b (error_message s) (function_context s).

Definition set_error_message (s : APRState) (msg : string) : APRState :=
  mkAPRState (file_path s) (original_code s) (current_code s)
    (error_line_no s) (patch_line s) (test_output s) (tests_passed s)
    (attempts s) (max_attempts s) (success s) msg (function_context s).

(** The [except] branch shared by the nodes:
    [{**state, 'error_message': ..., 'success': False}]. *)
Definition set_failed (s : APRState) (msg : string) : APRState :=
  set_success (set_error_message s msg) false.

(** *** Helpers *)

Definition digits_group : list item := [GroupPlus Digit].

(** The list [patterns] of [extract_error_line_number], in its order. *)
Definition patterns : list (list item) :=
  [ lit "line " ++ digits_group;
    lit ("File " ++ dquote)%string ++ [Plus (NotChr dquote_char)]
      ++ lit (dquote ++ ", line ")%string ++ digits_group;
    lit "Error on line " ++ digits_group;
    lit "at line " ++ digits_group;
    lit "Line " ++ digits_group ++ lit ":" ]%list.

(** The loop over the patterns: group 1 of the first pattern that matches. *)
Fixpoint first_match (ps : list (list item)) (s : string) : option string :=
  match ps with
  | [] => None
  | p :: ps' =>
      match search true p s with
      | Some cap => Some cap
      | None => first_match ps' s
      end
  end.

Definition extract_error_line_number (test_output : string) : Z :=
  match first_match patterns test_output with
  | Some cap => int_of_digits cap
  | None => 1
  end.

Definition identify_error_type (test_output : string) : string :=
  let error_output_lower := lower test_output in
  if contains "indexerror" error_output_lower then
    "Index Error (likely off-by-one or boundary issue)"
  else if contains "keyerror" error_output_lower then
    "Key Error (missing dictionary key)"
  else if contains "typeerror" error_output_lower then
    "Type Error (incorrect data type usage)"
  else if contains "valueerror" error_output_lower then
    "Value Error (invalid value)"
  else if contains "nameerror" error_output_lower then
    "Name Error (undefined variable)"
  else if contains "assertion" error_output_lower then
    "Logic Error (incorrect algorithm behavior)"
  else if contains "infinite" error_output_lower
          || contains "timeout" error_output_lower then
    "Infinite Loop or Performance Issue"
  else "General Error".

(** [get_code_context]; the indices of the loop lie inside [lines], so
    [lines[i]] cannot raise. *)
Definition get_code_context (code : string) (line_no radius : Z) : string :=
  let lines := splitlines code in
  let start_idx := Z.max 0 (line_no - 1 - radius) in
  let end_idx := Z.min (Z.of_nat (length lines)) (line_no + radius) in
  let render (i : Z) :=
    let line_num := i + 1 in
    let marker := if line_num =? line_no then ">>> " else "    " in
    marker ++ fmt_3d line_num ++ ": " ++ default "" (lines !! Z.to_nat i) in
  String.concat nl (render <$> seqZ start_idx (end_idx - start_idx)).

(** [tests_passed] as both test-running nodes derive it. *)
Definition output_passes (test_output : string) : bool :=
  negb (contains "FAIL" (upper test_output))
  && negb (contains "ERROR" (upper test_output)).

(** The clean-up of the model's reply in [generate_patch_node] (lines
    198-207). *)
Definition usable_line (line : string) : bool :=
  negb (String.eqb (strip line) "") && negb (startswith (strip line) fence).

Definition sanitize_response (content : string) : string :=
  let patch_line := strip content in
  if contains fence patch_line then
    match List.find usable_line (split_char nl_char patch_line) with
    | Some line => line
    | None => patch_line
    end
  else patch_line.

(** *** The environment and the world *)

(** The dict [prompt_input] handed to the prompt template. *)
Record PromptInput := mkPromptInput {
  pi_function_context : string;
  pi_error_type : string;
  pi_code_context : string;
  pi_error_line : Z;
  pi_test_output : string;
  pi_attempt_num : Z
}.

(** What the nodes cannot decide: whether [initialize_tools_and_llm] raises
    (and with which message), what the n-th run of the test harness does, and
    what the n-th call of the model answers to its prompt. *)
Record Env := mkEnv {
  init_error : option string;
  tester : nat -> proc_result;
  gemini : nat -> PromptInput -> llm_result
}.

Record World := mkWorld {
  files : gmap string entry;
  test_runs : nat;
  llm_calls : nat
}.

Definition initialize_tools_and_llm (env : Env) : exn + unit :=
  match init_error env with
  | Some m => inl (Exception_ m)
  | None => inr tt
  end.

(** [test_tool(path)]: one more run of the harness. *)
Definition run_tests (env : Env) (w : World) : World * string :=
  (mkWorld (files w) (S (test_runs w)) (llm_calls w),
   RunTestsTool_call (tester env (test_runs w))).

(** [try: body except Exception as e: return failed state]. *)
Definition catch (prefix : string) (s : APRState)
    (r : World * (exn + APRState)) : World * APRState :=
  match r with
  | (w, inr s') => (w, s')
  | (w, inl e) => (w, set_failed s (prefix ++ str_of_exn e))
  end.

(** *** Nodes *)

Definition load_code_node (env : Env) (w : World) (s : APRState)
    : World * APRState :=
  catch "Failed to load code: " s
    match initialize_tools_and_llm env with
    | inl e => (w, inl e)
    | inr _ =>
        match LoadCodeTool_call (files w) (file_path s) with
        | inl e => (w, inl e)
        | inr code => (w, inr (set_error_message (set_codes s code) ""))
        end
    end.

Definition localize_defect_node (env : Env) (w : World) (s : APRState)
    : World * APRState :=
  catch "Failed to localize defect: " s
    match initialize_tools_and_llm env with
    | inl e => (w, inl e)
    | inr _ =>
        let '(w1, test_output) := run_tests env w in
        let error_line := extract_error_line_number test_output in
        match get_function_context (current_code s) error_line with
        | inl e => (w1, inl e)
        | inr fc =>
            (w1, inr (set_localized s test_output error_line fc
                        (output_passes test_output)))
        end
    end.

Definition prompt_input_of (s : APRState) : PromptInput :=
  let error_type := identify_error_type (test_output s) in
  let code_context := get_code_context (current_code s) (error_line_no s) 3 in
  let label :=
    match function_context s with
    | None => "Code section"
    | Some fc =>
        match function_name fc with
        | None => "Function 'None'"
        | Some name =>
            if String.eqb name "unknown" then "Code section"
            else "Function '" ++ name ++ "'"
        end
    end in
  mkPromptInput label error_type code_context (error_line_no s)
    (last_chars 500 (test_output s)) (attempts s + 1).

Definition generate_patch_node (env : Env) (w : World) (s : APRState)
    : World * APRState :=
  catch "Failed to generate patch: " s
    match initialize_tools_and_llm env with
    | inl e => (w, inl e)
    | inr _ =>
        let w1 := mkWorld (files w) (test_runs w) (S (llm_calls w)) in
        match gemini env (llm_calls w) (prompt_input_of s) with
        | LlmRaises m => (w1, inl (Exception_ m))
        | Response content =>
            (w1, inr (set_patch s (sanitize_response content) (attempts s + 1)))
        end
    end.

Definition apply_patch_node (env : Env) (w : World) (s : APRState)
    : World * APRState :=
  catch "Failed to apply patch: " s
    match initialize_tools_and_llm env with
    | inl e => (w, inl e)
    | inr _ =>
        let '(r, fs) :=
          ApplyPatchTool_call (files w) (file_path s) (error_line_no s)
            (patch_line s) in
        let w1 := mkWorld fs (test_runs w) (llm_calls w) in
        match r with
        | inl e => (w1, inl e)
        | inr patched_code => (w1, inr (set_current_code s patched_code))
        end
    end.

Definition validate_patch_node (env : Env) (w : World) (s : APRState)
    : World * APRState :=
  catch "Failed to validate patch: " s
    match initialize_tools_and_llm env with
    | inl e => (w, inl e)
    | inr _ =>
        let '(w1, test_output) := run_tests env w in
        (w1, inr (set_validated s test_output (output_passes test_output)))
    end.

(** [finish_success_node]: the diff and the report are printed only; the
    diff tool catches its own exceptions. *)
Definition finish_success_node (env : Env) (w : World) (s : APRState)
    : World * APRState :=
  catch "Error in success handler: " s
    match initialize_tools_and_llm env with
    | inl e => (w, inl e)
    | inr _ => (w, inr (set_success s true))
    end.

(** [finish_failure_node]: prints the report. *)
Definition finish_failure_node (env : Env) (w : World) (s : APRState)
    : World * APRState :=
  (w, set_success s false).

(** *** The graph *)

Inductive node :=
| load_code | localize_defect | generate_patch | apply_patch
| validate_patch | finish_success | finish_failure | END.

(** [should_continue_repair]; the names it returns are the nodes the
    conditional edge maps them to. *)
Definition should_continue_repair (s : APRState) : node :=
  if negb (String.eqb (error_message s) "") then finish_failure
  else if tests_passed s then finish_success
  else if max_attempts s <=? attempts s then finish_failure
  else generate_patch.

Definition config : Type := node * World * APRState.

(** One super-step of the graph of [create_apr_graph]: run the node, follow
    its outgoing edge. *)
Definition step (env : Env) (c : config) : option config :=
  let '(n, w, s) := c in
  match n with
  | load_code =>
      let '(w', s') := load_code_node env w s in Some (localize_defect, w', s')
  | localize_defect =>
      let '(w', s') := localize_defect_node env w s in Some (generate_patch, w', s')
  | generate_patch =>
      let '(w', s') := generate_patch_node env w s in Some (apply_patch, w', s')
  | apply_patch =>
      let '(w', s') := apply_patch_node env w s in Some (validate_patch, w', s')
  | validate_patch =>
      let '(w', s') := validate_patch_node env w s in
      Some (should_continue_repair s', w', s')
  | finish_success =>
      let '(w', s') := finish_success_node env w s in Some (END, w', s')
  | finish_failure =>
      let '(w', s') := finish_failure_node env w s in Some (END, w', s')
  | END => None
  end.

(** The configuration after at most [n] super-steps. *)
Fixpoint exec (n : nat) (env : Env) (c : config) : config :=
  match n with
  | O => c
  | S k =>
      match step env c with
      | Some c' => exec k env c'
      | None => c
      end
  end.

(** The nodes entered during at most [n] super-steps, the current one
    first. *)
Fixpoint path (n : nat) (env : Env) (c : config) : list node :=
  c.1.1 ::
  match n with
  | O => []
  | S k =>
      match step env c with
      | Some c' => path k env c'
      | None => []
      end
  end.

(** [app.invoke(initial_state)]: enter at [load_code]. *)
Definition start (w : World) (s : APRState) : config := (load_code, w, s).

Definition node_of (c : config) : node := c.1.1.
Definition world_of (c : config) : World := c.1.2.
Definition state_of (c : config) : APRState := c.2.

(** The graph is compiled and invoked without a config
    ([apr_app.invoke(state)]), so LangGraph's default [recursion_limit] of 25
    super-steps applies. *)
Definition recursion_limit : nat := 25.

(** What [app.invoke] does: the final state, or [GraphRecursionError] when
    the run has not ended within the limit (the world is the one the
    interrupted run left). *)
Inductive invoke_result :=
| Returned (w : World) (s : APRState)
| GraphRecursionError (w : World).

Definition invoke (env : Env) (w : World) (s : APRState) : invoke_result :=
  let c := exec recursion_limit env (start w s) in
  match node_of c with
  | END => Returned (world_of c) (state_of c)
  | _ => GraphRecursionError (world_of c)
  end.

(** A configuration the graph can be in when started on [c0]. *)
Definition reachable (env : Env) (c0 c : config) : Prop :=
  rtc (fun a b => step env a = Some b) c0 c.

End Agent.

(** ** Sample sessions used to run the embedding *)

Module Demo.
Import PyStr Re Tools Agent.

(** A three-line program: an indented body line and a top-level line. *)
Definition prog_text : string :=
  "def f(x):" ++ nl ++ "    return x - 1" ++ nl ++ "y = f(2)" ++ nl.

Definition fs : gmap string entry := {[ "prog.py" := File prog_text ]}.

(** The session [main] builds for a path. *)
Definition initial_state (path : string) : APRState :=
  mkAPRState path "" "" 0 "" "" false 0 3 false "" None.

Definition world (files : gmap string entry) : World := mkWorld files 0 0.

Definition failing_output : proc_result :=
  Completed ("FAIL: f(2) returned 1, see line 2" ++ nl) "".

(** The model always answers with the same line. *)
Definition env_always_failing : Env :=
  mkEnv None (fun _ => failing_output) (fun _ _ => Response "return x + 2").

(** The first patch makes the harness print a passing report. *)
Definition env_first_patch_passes : Env :=
  mkEnv None
    (fun n => match n with
              | O => failing_output
              | _ => Completed ("all tests passed" ++ nl) ""
              end)
    (fun _ _ => Response "return x + 1").

(** Twenty numbered lines, [l1] to [l20]. *)
Definition code20 : string :=
  String.concat nl ((fun i => "l" ++ str_of_Z i) <$> seqZ 1 20).

(** A report with a bare line reference ahead of a traceback frame. *)
Definition mixed_report : string :=
  "see line 5; File " ++ dquote ++ "a.py" ++ dquote ++ ", line 10, in f".

(** The session with another budget. *)
Definition session_with_budget (path : string) (budget : Z) : APRState :=
  mkAPRState path "" "" 0 "" "" false 0 budget false "" None.

(** A report of sixty failing cases, 660 characters long, and a session that
    holds it as its test output. *)
Definition long_report : string :=
  String.concat "" (List.repeat ("FAIL: case" ++ nl) 60).

Definition session_with_long_report : APRState :=
  set_validated (initial_state "prog.py") long_report false.

End Demo.

(** ** Notions of the specification: the classification rule as it is
    worded, to compare with the code, and the predicates on runs *)

Module Spec.
Import PyStr Agent.

(** Case-insensitive containment of a keyword. *)
Definition contains_ci (keyword text : string) : bool :=
  contains (lower keyword) (lower text).

(** The ordered priority list: the keywords of a category and its label. *)
Definition priority_list : list (list string * string) :=
  [ (["IndexError"], "Index Error (likely off-by-one or boundary issue)");
    (["KeyError"], "Key Error (missing dictionary key)");
    (["TypeError"], "Type Error (incorrect data type usage)");
    (["ValueError"], "Value Error (invalid value)");
    (["NameError"], "Name Error (undefined variable)");
    (["Assertion"], "Logic Error (incorrect algorithm behavior)");
    (["Infinite"; "Timeout"], "Infinite Loop or Performance Issue") ].

(** First category in priority order one of whose keywords occurs, else the
    generic one. *)
Fixpoint classify_by_priority (table : list (list string * string))
    (text : string) : string :=
  match table with
  | [] => "General Error"
  | (keywords, category) :: rest =>
      if existsb (fun k => contains_ci k text) keywords then category
      else classify_by_priority rest text
  end.

(** The text holds no line feed, so it is one line of a file. *)
Definition no_line_feed (s : string) : bool := negb (contains nl s).

(** A fence line: its first characters, blanks aside, are the fence
    marker. *)
Definition is_fence_line (l : string) : bool := startswith (strip l) fence.

(** An empty line has no character; a blank line has none but whitespace. *)
Definition is_empty_line (l : string) : bool := String.eqb l "".
Definition is_blank_line (l : string) : bool := String.eqb (strip l) "".

(** The lines of a fenced block: those after the opening fence line, up to
    the next fence line. *)
Fixpoint block_lines (rest : list string) : list string :=
  match rest with
  | [] => []
  | l :: rest' => if is_fence_line l then [] else l :: block_lines rest'
  end.

(** The fenced block of a reply that begins with a fence line. *)
Definition fenced_block (lines : list string) : option (list string) :=
  match lines with
  | l0 :: rest => if is_fence_line l0 then Some (block_lines rest) else None
  | [] => None
  end.

(** The first line of a block that is not empty, and the first that is not
    blank. *)
Definition first_nonempty_line (block : list string) : option string :=
  List.find (fun l => negb (is_empty_line l)) block.

Definition first_code_line (block : list string) : option string :=
  List.find (fun l => negb (is_blank_line l)) block.

(** No stage of the run started at [c0] signals a system fault: after the
    first super-step (Load, which clears the field) the error message is
    empty at every step. *)
Definition no_system_error (env : Env) (c0 : config) : Prop :=
  forall n, (1 <= n)%nat -> error_message (state_of (exec n env c0)) = "".

(** The same, checked on the first [N] super-steps. *)
Definition no_system_error_upto (N : nat) (env : Env) (c0 : config) : bool :=
  forallb (fun n => String.eqb (error_message (state_of (exec n env c0))) "")
    (seq 1 N).

(** The bound on the attempt counter, by node: a node ahead of the
    increment in Generate is entered below the budget [M]. *)
Definition attempts_invariant (M : Z) (c : config) : Prop :=
  max_attempts (state_of c) = M
  /\ match node_of c with
     | load_code | localize_defect | generate_patch => attempts (state_of c) < M
     | _ => attempts (state_of c) <= M
     end.

End Spec.

(** ** Further notions used to state what the code keeps *)

Module Facts.
Import PyStr Agent.

(** The text holds no carriage return. *)
Fixpoint cr_free (s : string) : bool :=
  match s with
  | "" => true
  | String c s' => negb (Ascii.eqb c cr_char) && cr_free s'
  end.

(** Every character of the text is an ASCII character (code point below
    128), the domain on which the string methods are modelled. *)
Fixpoint is_ascii (s : string) : bool :=
  match s with
  | "" => true
  | String c s' => (N_of_ascii c <? 128)%N && is_ascii s'
  end.

(** Every character of the text is an ASCII digit. *)
Fixpoint all_digits (s : string) : bool :=
  match s with
  | "" => true
  | String c s' => isdigit c && all_digits s'
  end.

(** The file under repair holds the session's current code. *)
Definition synced (c : config) : Prop :=
  files (world_of c) !! file_path (state_of c)
  = Some (File (current_code (state_of c))).

(** What the router's choice says about the state a terminal node is
    entered with, and about the one the run ends with; [a0] is the attempt
    counter the run started with. *)
Definition verdict_invariant (a0 : Z) (c : config) : Prop :=
  let s := state_of c in
  let passed := error_message s = "" /\ tests_passed s = true
                /\ a0 + 1 <= attempts s in
  let failed := error_message s <> ""
                \/ (tests_passed s = false /\ max_attempts s <= attempts s) in
  a0 <= attempts s
  /\ match node_of c with
     | load_code | localize_defect | generate_patch => True
     | apply_patch | validate_patch => error_message s = "" -> a0 + 1 <= attempts s
     | finish_success => passed
     | finish_failure => failed
     | END => if success s then passed else failed
     end.

(** Calls of the model and runs of the harness since the run started with
    counters [l0] and [t0], against the attempts counted since [a0] and the
    budget [M]. *)
Definition budget_invariant (env : Env) (M a0 : Z) (l0 t0 : nat) (c : config)
    : Prop :=
  let s := state_of c in
  let C := Z.of_nat (llm_calls (world_of c)) - Z.of_nat l0 in
  let T := Z.of_nat (test_runs (world_of c)) - Z.of_nat t0 in
  max_attempts s = M
  /\ a0 <= attempts s /\ attempts s - a0 <= C /\ 0 <= T
  /\ (init_error env <> None -> C = 0 /\ T = 0)
  /\ match node_of c with
     | load_code | localize_defect => attempts s = a0 /\ C = 0 /\ T = 0
     | generate_patch => C = attempts s - a0 /\ attempts s < M /\ T <= C + 1
     | apply_patch | validate_patch =>
         C <= M - a0 /\ (error_message s = "" -> C = attempts s - a0) /\ T <= C
     | finish_success | finish_failure | END => C <= M - a0 /\ T <= C + 1
     end.

(** The current code is on disk when a patch has just gone through, and
    still when the run ends in success. *)
Definition sync_invariant (c : config) : Prop :=
  match node_of c with
  | validate_patch => error_message (state_of c) = "" -> synced c
  | finish_success => synced c
  | END => success (state_of c) = true -> synced c
  | _ => True
  end.

End Facts.

(** * Properties *)

Import PyStr Re Tools Agent.

(** ** The test oracle *)

(** Looking for an upper-case marker in the upper-cased text, as both
    test-running nodes do, is looking for it without regard to case. *)
Lemma lower_upper_char (a : ascii) : lower_char (upper_char a) = lower_char a.
Proof. destruct a as [[] [] [] [] [] [] [] []]; reflexivity. Qed.

Lemma upper_lower_char (a : ascii) : upper_char (lower_char a) = upper_char a.
Proof. destruct a as [[] [] [] [] [] [] [] []]; reflexivity. Qed.

Lemma eqb_upper_lower_char (a b : ascii) :
  Ascii.eqb (upper_char a) (upper_char b) = Ascii.eqb (lower_char a) (lower_char b).
Proof.
  destruct (Ascii.eqb_spec (upper_char a) (upper_char b)) as [E|N];
    destruct (Ascii.eqb_spec (lower_char a) (lower_char b)) as [E'|N'];
    try reflexivity; exfalso.
  - apply N'. rewrite <- (lower_upper_char a), <- (lower_upper_char b), E.
    reflexivity.
  - apply N. rewrite <- (upper_lower_char a), <- (upper_lower_char b), E'.
    reflexivity.
Qed.

Lemma startswith_upper_lower (k s : string) :
  startswith (upper s) (upper k) = startswith (lower s) (lower k).
Proof.
  revert s. induction k as [|a k IH]; intros s; [destruct s; reflexivity|].
  destruct s as [|b s]; [reflexivity|].
  cbn [upper lower startswith]. rewrite eqb_upper_lower_char, IH. reflexivity.
Qed.

Lemma contains_upper_lower (k s : string) :
  contains (upper k) (upper s) = contains (lower k) (lower s).
Proof.
  induction s as [|b s IH].
  - pose proof (startswith_upper_lower k "") as H. cbn [upper lower] in H.
    cbn [upper lower contains]. rewrite H. reflexivity.
  - pose proof (startswith_upper_lower k (String b s)) as H.
    cbn [upper lower] in H. cbn [upper lower contains]. rewrite H, IH.
    reflexivity.
Qed.

Lemma output_passes_ci (test_output : string) :
  output_passes test_output
  = negb (Spec.contains_ci "FAIL" test_output)
    && negb (Spec.contains_ci "ERROR" test_output).
Proof.
  unfold output_passes, Spec.contains_ci.
  rewrite <- (contains_upper_lower "FAIL"), <- (contains_upper_lower "ERROR").
  reflexivity.
Qed.

(** C10: a harness run whose combined output is empty or whitespace-only is
    reported as the placeholder text, which has neither marker, so the
    validating node sets [tests_passed] to true. *)
Theorem silent_run_is_classified_as_pass (stdout stderr : string) :
  strip (stdout ++ stderr) = "" ->
  RunTestsTool_call (Completed stdout stderr) = "No test output generated"
  /\ contains "FAIL" (upper (RunTestsTool_call (Completed stdout stderr))) = false
  /\ contains "ERROR" (upper (RunTestsTool_call (Completed stdout stderr))) = false
  /\ forall env w s,
       init_error env = None ->
       tester env (test_runs w) = Completed stdout stderr ->
       tests_passed (validate_patch_node env w s).2 = true
       /\ test_output (validate_patch_node env w s).2 = "No test output generated".
Proof.
  intros Hblank.
  assert (Hcall : RunTestsTool_call (Completed stdout stderr)
                  = "No test output generated").
  { unfold RunTestsTool_call. rewrite Hblank. reflexivity. }
  rewrite Hcall. split; [reflexivity|]. split; [reflexivity|].
  split; [reflexivity|]. intros env w s Hinit Hrun.
  unfold validate_patch_node, initialize_tools_and_llm, run_tests.
  rewrite Hinit, Hrun, Hcall. split; reflexivity.
Qed.

Lemma silent_run_is_classified_as_pass_witness :
  RunTestsTool_call (Completed ("  " ++ nl) "") = "No test output generated"
  /\ contains "FAIL" (upper (RunTestsTool_call (Completed ("  " ++ nl) ""))) = false.
Proof.
  pose proof (silent_run_is_classified_as_pass ("  " ++ nl) "" eq_refl) as H.
  split; [exact (proj1 H) | exact (proj1 (proj2 H))].
Defined.

(** ** The patch applier *)

(** C4: with [line_no] outside [1, total_lines] the tool raises (the range
    error, wrapped by the tool's handler) and the file system is the one it
    started with. *)
Theorem apply_out_of_range_fails_without_write
    (fs : gmap string entry) (path raw : string) (line_no : Z) (new_line : string) :
  fs !! path = Some (File raw) ->
  line_no < 1 \/ line_no > Z.of_nat (length (readlines (universal_newlines raw))) ->
  ApplyPatchTool_call fs path line_no new_line =
    (inl (Exception_
            ("Error applying patch to " ++ path ++ " at line " ++ str_of_Z line_no
             ++ ": Line number " ++ str_of_Z line_no ++ " is out of range (1-"
             ++ str_of_Z (Z.of_nat (length (readlines (universal_newlines raw))))
             ++ ")")), fs).
Proof.
  intros Hfile Hrange.
  unfold ApplyPatchTool_call, apply_patch_body. rewrite Hfile.
  assert (Hguard : (line_no <? 1)
                   || (Z.of_nat (length (readlines (universal_newlines raw))) <? line_no)
                   = true).
  { apply orb_true_iff. destruct Hrange; [left | right]; apply Z.ltb_lt; lia. }
  rewrite Hguard. reflexivity.
Qed.

Lemma apply_out_of_range_fails_without_write_witness :
  ApplyPatchTool_call Demo.fs "prog.py" 4 "y = f(3)" =
    (inl (Exception_
            "Error applying patch to prog.py at line 4: Line number 4 is out of range (1-3)"),
     Demo.fs).
Proof.
  refine (apply_out_of_range_fails_without_write Demo.fs "prog.py"
            Demo.prog_text 4 "y = f(3)" _ _).
  - reflexivity.
  - right. vm_compute. reflexivity.
Defined.

(** *** Facts about stripping and suffixes *)

#[local] Arguments String.append !_ _ / : simpl nomatch.

Lemma append_assoc (a b c : string) : (a ++ b) ++ c = a ++ b ++ c.
Proof. induction a as [|x a IH]; simpl; [reflexivity|]. rewrite IH. reflexivity. Qed.

Lemma lstrip_length (s : string) :
  (String.length (lstrip s) <= String.length s)%nat.
Proof.
  induction s as [|c s IH]; simpl; [lia|].
  destruct (isspace c); simpl; lia.
Qed.

Lemma lstrip_fixed_head (s : string) :
  lstrip s = s -> s <> "" ->
  exists c t, s = String c t /\ isspace c = false.
Proof.
  destruct s as [|c t]; [congruence|]. intros Hfix _.
  exists c, t. split; [reflexivity|].
  simpl in Hfix. destruct (isspace c); [|reflexivity].
  pose proof (lstrip_length t) as Hlen. rewrite Hfix in Hlen. simpl in Hlen. lia.
Qed.

Lemma rstrip_head (c : ascii) (t : string) :
  isspace c = false -> exists r, rstrip (String c t) = String c r.
Proof.
  intros Hc. simpl. destruct (rstrip t); rewrite ?Hc; eauto.
Qed.

Lemma rstrip_last_not_space (s y : string) (c : ascii) :
  rstrip s = y ++ String c "" -> isspace c = false.
Proof.
  revert y. induction s as [|a s IH]; intros y Hy; simpl in Hy.
  - destruct y; discriminate.
  - destruct (rstrip s) as [|b r] eqn:Hr.
    + destruct (isspace a) eqn:Ha.
      * destruct y; discriminate.
      * destruct y as [|y0 y]; simpl in Hy.
        -- injection Hy as <-. exact Ha.
        -- destruct y; discriminate.
    + destruct y as [|y0 y]; simpl in Hy; [discriminate|].
      injection Hy as _ Hy. apply (IH y). exact Hy.
Qed.

Lemma append_last_inv (a b y : string) (c : ascii) :
  a ++ b = y ++ String c "" -> b <> "" -> exists y', b = y' ++ String c "".
Proof.
  revert y. induction a as [|x a IH]; intros y Heq Hb; simpl in Heq.
  - eauto.
  - destruct y as [|y0 y]; simpl in Heq.
    + injection Heq as _ Heq. destruct a; simpl in Heq; [congruence|discriminate].
    + injection Heq as _ Heq. eauto.
Qed.

Lemma endswith_char_inv (s : string) (c : ascii) :
  endswith s (String c "") = true -> exists y, s = y ++ String c "".
Proof.
  induction s as [|a s IH]; simpl; intros H.
  - discriminate.
  - apply orb_true_iff in H as [H|H].
    + exists "". simpl. destruct s; [|destruct (Ascii.eqb a c); discriminate].
      destruct (Ascii.eqb_spec a c); [congruence|discriminate].
    + destruct (IH H) as [y ->]. exists (String a y). reflexivity.
Qed.

Lemma stripped_line_has_no_newline_end (pre s : string) :
  rstrip s <> "" -> endswith (pre ++ rstrip s) nl = false.
Proof.
  intros Hne. destruct (endswith (pre ++ rstrip s) nl) eqn:He; [|reflexivity].
  apply endswith_char_inv in He as [y Hy].
  destruct (append_last_inv _ _ _ _ Hy Hne) as [y' Hy'].
  apply rstrip_last_not_space in Hy'. discriminate.
Qed.

Lemma spaces_not_prefix (n : nat) (c : ascii) (t : string) :
  isspace c = false -> startswith (String c t) (spaces (S n)) = false.
Proof.
  intros Hc. cbn [startswith spaces].
  destruct (Ascii.eqb_spec space_char c) as [<-|]; [discriminate|reflexivity].
Qed.

(** What [indent_new_line] stores for a candidate that is not blank and
    does not begin with whitespace. *)
Lemma indent_new_line_unindented (original_line cand : string) :
  cand <> "" -> lstrip cand = cand ->
  indent_new_line original_line cand =
    if (original_indent_of original_line =? 0)%nat
    then (if endswith cand nl then cand else cand ++ nl)
    else spaces (original_indent_of original_line) ++ strip cand ++ nl.
Proof.
  intros Hne Hfix.
  destruct (lstrip_fixed_head cand Hfix Hne) as (c & t & -> & Hc).
  destruct (rstrip_head c t Hc) as [r Hr].
  unfold indent_new_line, strip. rewrite Hfix, Hr.
  destruct (original_indent_of original_line) as [|n] eqn:HW.
  - change (String c r =? "")%string with false.
    cbn [spaces startswith negb andb Nat.eqb].
    destruct (endswith (String c t) nl); reflexivity.
  - rewrite spaces_not_prefix by exact Hc.
    change (String c r =? "")%string with false. cbn [negb andb Nat.eqb].
    rewrite <- Hr.
    enough (E : endswith (spaces (S n) ++ rstrip (String c t)) nl = false).
    { rewrite E. cbn [negb]. rewrite append_assoc. reflexivity. }
    apply stripped_line_has_no_newline_end. rewrite Hr. discriminate.
Qed.

(** C5 (as amended): a non-empty candidate with no leading whitespace,
    applied at a valid line whose original line has indentation width W, is
    stored as W spaces, the trimmed candidate and one line terminator when
    W >= 1; when W = 0 the candidate is stored as given, with a line
    terminator appended unless it ends with one.  The other lines are
    unchanged, and the file holds the joined lines. *)
Theorem apply_stores_indented_candidate
    (fs : gmap string entry) (path raw : string) (line_no : Z)
    (cand original_line : string) :
  fs !! path = Some (File raw) ->
  1 <= line_no ->
  readlines (universal_newlines raw) !! Z.to_nat (line_no - 1) = Some original_line ->
  cand <> "" -> lstrip cand = cand ->
  let lines := readlines (universal_newlines raw) in
  let W := original_indent_of original_line in
  let stored :=
    if (W =? 0)%nat then (if endswith cand nl then cand else cand ++ nl)
    else spaces W ++ strip cand ++ nl in
  let lines' := <[Z.to_nat (line_no - 1) := stored]> lines in
  ApplyPatchTool_call fs path line_no cand =
    (inr (join lines'), <[path := File (join lines')]> fs)
  /\ lines' !! Z.to_nat (line_no - 1) = Some stored
  /\ length lines' = length lines
  /\ forall j, j <> Z.to_nat (line_no - 1) -> lines' !! j = lines !! j.
Proof.
  intros Hfile Hlo Hline Hne Hfix lines W stored lines'.
  pose proof (lookup_lt_Some _ _ _ Hline) as Hlt.
  split; [|split; [|split]].
  - unfold ApplyPatchTool_call, apply_patch_body. rewrite Hfile.
    assert (Hguard : (line_no <? 1)
                     || (Z.of_nat (length (readlines (universal_newlines raw))) <? line_no)
                     = false).
    { apply orb_false_iff. split; apply Z.ltb_ge; lia. }
    rewrite Hguard, Hline.
    rewrite (indent_new_line_unindented original_line cand Hne Hfix).
    reflexivity.
  - apply list_lookup_insert_eq. exact Hlt.
  - apply length_insert.
  - intros j Hj. apply list_lookup_insert_ne. congruence.
Qed.

Lemma apply_stores_indented_candidate_witness :
  ApplyPatchTool_call Demo.fs "prog.py" 2 "return x + 1" =
    (inr ("def f(x):" ++ nl ++ "    return x + 1" ++ nl ++ "y = f(2)" ++ nl),
     <["prog.py" := File ("def f(x):" ++ nl ++ "    return x + 1" ++ nl
                          ++ "y = f(2)" ++ nl)]> Demo.fs).
Proof.
  refine (proj1 (apply_stores_indented_candidate Demo.fs "prog.py" Demo.prog_text 2
                   "return x + 1" ("    return x - 1" ++ nl) _ _ _ _ _)).
  - reflexivity.
  - lia.
  - reflexivity.
  - discriminate.
  - reflexivity.
Defined.

(** C5 (as stated) fails in two ways: at indentation 0 the candidate is not
    trimmed, and an empty candidate gets no indentation. *)
Lemma unindented_candidate_not_always_trimmed :
  (lstrip "y = f(3)  " = "y = f(3)  "
   /\ readlines (universal_newlines Demo.prog_text) !! 2%nat = Some ("y = f(2)" ++ nl)
   /\ original_indent_of ("y = f(2)" ++ nl) = 0%nat
   /\ exists code fs',
        ApplyPatchTool_call Demo.fs "prog.py" 3 "y = f(3)  " = (inr code, fs')
        /\ readlines code !! 2%nat = Some ("y = f(3)  " ++ nl)
        /\ "y = f(3)  " ++ nl <> spaces 0 ++ strip "y = f(3)  " ++ nl)
  /\ (lstrip "" = ""
      /\ readlines (universal_newlines Demo.prog_text) !! 1%nat
         = Some ("    return x - 1" ++ nl)
      /\ original_indent_of ("    return x - 1" ++ nl) = 4%nat
      /\ exists code fs',
           ApplyPatchTool_call Demo.fs "prog.py" 2 "" = (inr code, fs')
           /\ readlines code !! 1%nat = Some nl
           /\ nl <> spaces 4 ++ strip "" ++ nl).
Proof.
  split.
  - repeat split; try reflexivity.
    eexists _, _. split; [reflexivity|]. split; [reflexivity|]. discriminate.
  - repeat split; try reflexivity.
    eexists _, _. split; [reflexivity|]. split; [reflexivity|]. discriminate.
Qed.

(** ** The defect localizer: error categories *)

(** C7: the category is that of the first keyword, in the priority order
    index, key, type, value, name, assertion, infinite/timeout, that occurs in
    the text without regard to case, and the generic category when none
    occurs; in particular, in a text with both KeyError and AssertionError the
    key keyword is the one that counts: the text is never put in the assertion
    category, it is a key error, and only the index keyword, which stands
    higher still, takes it to the index category. *)
Theorem identify_error_type_follows_priority (text : string) :
  identify_error_type text = Spec.classify_by_priority Spec.priority_list text
  /\ (Spec.contains_ci "KeyError" text = true ->
      Spec.contains_ci "AssertionError" text = true ->
      identify_error_type text <> "Logic Error (incorrect algorithm behavior)"
      /\ identify_error_type text =
           if Spec.contains_ci "IndexError" text
           then "Index Error (likely off-by-one or boundary issue)"
           else "Key Error (missing dictionary key)").
Proof.
  split.
  - unfold identify_error_type, Spec.classify_by_priority, Spec.priority_list,
      Spec.contains_ci, existsb.
    change (lower "IndexError") with "indexerror".
    change (lower "KeyError") with "keyerror".
    change (lower "TypeError") with "typeerror".
    change (lower "ValueError") with "valueerror".
    change (lower "NameError") with "nameerror".
    change (lower "Assertion") with "assertion".
    change (lower "Infinite") with "infinite".
    change (lower "Timeout") with "timeout".
    repeat match goal with
           | |- context [contains ?k (lower text)] =>
               destruct (contains k (lower text)); cbn [orb]; try reflexivity
           end.
  - unfold Spec.contains_ci, identify_error_type.
    change (lower "IndexError") with "indexerror".
    change (lower "KeyError") with "keyerror".
    intros Hkey _. rewrite Hkey.
    destruct (contains "indexerror" (lower text)); split;
      [discriminate|reflexivity|discriminate|reflexivity].
Qed.

Lemma identify_error_type_follows_priority_witness :
  identify_error_type ("KeyError: 'a'" ++ nl ++ "AssertionError")
  = "Key Error (missing dictionary key)".
Proof.
  refine (proj2 (proj2 (identify_error_type_follows_priority
                          ("KeyError: 'a'" ++ nl ++ "AssertionError")) _ _));
    reflexivity.
Defined.

(** ** The patch oracle client: cleaning the reply *)

(** A pattern without whitespace occurs in a text exactly when it occurs in
    the stripped text. *)

Lemma space_differs (a c : ascii) :
  isspace a = false -> isspace c = true -> Ascii.eqb a c = false.
Proof.
  intros Ha Hc. destruct (Ascii.eqb_spec a c) as [->|]; [congruence|reflexivity].
Qed.

Lemma contains_lstrip (p0 : ascii) (p' s : string) :
  isspace p0 = false ->
  contains (String p0 p') (lstrip s) = contains (String p0 p') s.
Proof.
  intros Hp. induction s as [|c s IH]; [reflexivity|].
  cbn [lstrip]. destruct (isspace c) eqn:Hc; [|reflexivity].
  rewrite IH. cbn [contains startswith].
  rewrite (space_differs p0 c Hp Hc). reflexivity.
Qed.

Lemma rstrip_cons (c : ascii) (s : string) :
  rstrip (String c s) = String c (rstrip s)
  \/ (rstrip (String c s) = "" /\ rstrip s = "" /\ isspace c = true).
Proof.
  cbn [rstrip]. destruct (rstrip s); [|left; reflexivity].
  destruct (isspace c); [right|left]; auto.
Qed.

Lemma startswith_rstrip (p s : string) :
  no_space p = true -> startswith (rstrip s) p = startswith s p.
Proof.
  revert p. induction s as [|c s IH]; intros p Hp; [reflexivity|].
  destruct p as [|p0 p']; [destruct (rstrip (String c s)); reflexivity|].
  cbn [no_space] in Hp. apply andb_true_iff in Hp as [Hp0 Hp'].
  apply negb_true_iff in Hp0.
  destruct (rstrip_cons c s) as [E|(E & _ & Hc)]; rewrite E.
  - cbn [startswith]. rewrite (IH p' Hp'). reflexivity.
  - cbn [startswith]. rewrite (space_differs p0 c Hp0 Hc). reflexivity.
Qed.

Lemma contains_rstrip (p0 : ascii) (p' s : string) :
  no_space (String p0 p') = true ->
  contains (String p0 p') (rstrip s) = contains (String p0 p') s.
Proof.
  intros Hp. induction s as [|c s IH]; [reflexivity|].
  pose proof (startswith_rstrip (String p0 p') (String c s) Hp) as Hsw.
  destruct (rstrip_cons c s) as [E|(E & Es & Hc)]; rewrite E in *.
  - cbn [contains]. rewrite IH. cbn [contains] in Hsw. rewrite Hsw. reflexivity.
  - rewrite Es in IH. cbn [contains]. rewrite <- IH, <- Hsw. reflexivity.
Qed.

Lemma contains_fence_strip (s : string) :
  contains fence (strip s) = contains fence s.
Proof.
  unfold strip, fence.
  rewrite contains_rstrip by reflexivity.
  apply contains_lstrip. reflexivity.
Qed.

Lemma split_char_nonempty (c : ascii) (s : string) : split_char c s <> [].
Proof.
  induction s as [|x s IH]; cbn [split_char]; [discriminate|].
  destruct (Ascii.eqb x c); [discriminate|].
  destruct (split_char c s); discriminate.
Qed.

Lemma split_char_pieces_lack_separator (c : ascii) (s l : string) :
  In l (split_char c s) -> contains (String c "") l = false.
Proof.
  revert l. induction s as [|x s IH]; intros l Hin; cbn [split_char] in Hin.
  - destruct Hin as [<-|[]]. reflexivity.
  - destruct (Ascii.eqb_spec x c) as [->|Hx].
    + destruct Hin as [<-|Hin]; [reflexivity|]. apply IH, Hin.
    + destruct (split_char c s) as [|h t] eqn:Hs.
      { destruct (split_char_nonempty c s Hs). }
      assert (Hh : contains (String c "") h = false) by (apply IH; left; reflexivity).
      destruct Hin as [<-|Hin]; [|apply IH; right; exact Hin].
      cbn [contains startswith]. rewrite Hh.
      destruct (Ascii.eqb_spec c x); [congruence|reflexivity].
Qed.

Lemma contains_unfold (sub s : string) :
  contains sub s =
    startswith s sub
    || match s with "" => false | String _ s' => contains sub s' end.
Proof. destruct s; reflexivity. Qed.

Lemma startswith_app_l (x a b : string) :
  startswith a x = true -> startswith (a ++ b) x = true.
Proof.
  revert a. induction x as [|c x IH]; intros a H.
  - destruct (a ++ b); reflexivity.
  - destruct a as [|d a]; [discriminate|]. simpl. cbn [startswith] in *.
    destruct (Ascii.eqb c d); [auto|discriminate].
Qed.

Lemma contains_app_l (x a b : string) :
  contains x a = true -> contains x (a ++ b) = true.
Proof.
  induction a as [|c a IH]; intros H.
  - cbn [contains] in H. rewrite orb_false_r in H.
    rewrite contains_unfold, (startswith_app_l x "" b H). reflexivity.
  - cbn [contains] in H. change (String c a ++ b) with (String c (a ++ b)).
    cbn [contains]. apply orb_true_iff in H as [H|H].
    + pose proof (startswith_app_l x (String c a) b H) as H'.
      change (String c a ++ b) with (String c (a ++ b)) in H'.
      rewrite H'. reflexivity.
    + rewrite (IH H). apply orb_true_r.
Qed.

Lemma split_char_head (c : ascii) (s h : string) (t : list string) :
  split_char c s = h :: t -> exists rest, s = h ++ rest.
Proof.
  revert h t. induction s as [|x s IH]; intros h t; cbn [split_char].
  - intros [= <- _]. exists "". reflexivity.
  - destruct (Ascii.eqb x c).
    + intros [= <- _]. exists (String x s). reflexivity.
    + destruct (split_char c s) as [|h' t'] eqn:E.
      * intros [= <- _]. destruct (split_char_nonempty c s E).
      * intros [= <- _]. destruct (IH h' t' eq_refl) as [rest ->].
        exists rest. reflexivity.
Qed.

(** A reply whose first line is a fence line holds a fence marker. *)
Lemma fence_line_first_has_marker (reply l0 : string) (rest : list string) :
  split_char nl_char reply = l0 :: rest ->
  Spec.is_fence_line l0 = true -> contains fence reply = true.
Proof.
  intros Hsplit Hfence. destruct (split_char_head _ _ _ _ Hsplit) as [tail ->].
  apply contains_app_l. rewrite <- contains_fence_strip.
  unfold Spec.is_fence_line in Hfence. rewrite contains_unfold, Hfence.
  reflexivity.
Qed.

(** Inside the block, the first line that is not blank is the first line the
    scan of the code accepts. *)
Lemma first_code_line_is_found (rest : list string) (line : string) :
  Spec.first_code_line (Spec.block_lines rest) = Some line ->
  List.find usable_line rest = Some line.
Proof.
  unfold Spec.first_code_line.
  induction rest as [|l rest IH]; cbn [Spec.block_lines List.find];
    [discriminate|].
  unfold usable_line at 1.
  change (startswith (strip l) fence) with (Spec.is_fence_line l).
  change (strip l =? "")%string with (Spec.is_blank_line l).
  destruct (Spec.is_fence_line l); [discriminate|]. cbn [List.find].
  destruct (Spec.is_blank_line l); cbn [negb andb]; [exact IH|auto].
Qed.

(** The first line that is not empty is the first that is not blank, unless
    it is made of whitespace. *)
Lemma first_nonempty_is_first_code_line (block : list string) (line : string) :
  Spec.first_nonempty_line block = Some line ->
  Spec.is_blank_line line = false ->
  Spec.first_code_line block = Some line.
Proof.
  unfold Spec.first_nonempty_line, Spec.first_code_line.
  induction block as [|l block IH]; cbn [List.find]; [discriminate|].
  unfold Spec.is_empty_line at 1. destruct (String.eqb_spec l "") as [->|Hl];
    cbn [negb].
  - intros Hfind Hline. change (Spec.is_blank_line "") with true. cbn [negb].
    apply IH; assumption.
  - intros [= ->] Hline. rewrite Hline. reflexivity.
Qed.

(** C9 (as amended): a reply without fence markers is kept, trimmed, on as
    many lines as it has; for a reply whose trimmed text begins with a fence
    line, the patch line is the first line of the fenced block (the lines
    after the opening fence line and before the next fence line) that is not
    blank, when the block has one, and it holds no line feed; it is the
    first non-empty line of the block unless that line is made of
    whitespace. *)
Theorem sanitize_response_takes_first_block_line (content : string) :
  let reply := strip content in
  (contains fence content = false -> sanitize_response content = reply)
  /\ (forall block line,
        Spec.fenced_block (split_char nl_char reply) = Some block ->
        Spec.first_code_line block = Some line ->
        sanitize_response content = line /\ Spec.no_line_feed line = true)
  /\ (forall block line,
        Spec.fenced_block (split_char nl_char reply) = Some block ->
        Spec.first_nonempty_line block = Some line ->
        Spec.is_blank_line line = false ->
        sanitize_response content = line /\ Spec.no_line_feed line = true).
Proof.
  intros reply.
  assert (Hblock : forall block line,
             Spec.fenced_block (split_char nl_char reply) = Some block ->
             Spec.first_code_line block = Some line ->
             sanitize_response content = line /\ Spec.no_line_feed line = true).
  { intros block line Hblock Hline. unfold Spec.fenced_block in Hblock.
    destruct (split_char nl_char reply) as [|l0 rest] eqn:Hsplit; [discriminate|].
    destruct (Spec.is_fence_line l0) eqn:Hfence; [|discriminate].
    injection Hblock as <-.
    assert (Hfind : List.find usable_line (l0 :: rest) = Some line).
    { cbn [List.find]. unfold usable_line at 1.
      change (startswith (strip l0) fence) with (Spec.is_fence_line l0).
      rewrite Hfence, andb_false_r. apply first_code_line_is_found, Hline. }
    unfold sanitize_response. fold reply.
    rewrite (fence_line_first_has_marker reply l0 rest Hsplit Hfence).
    rewrite Hsplit, Hfind. split; [reflexivity|].
    unfold Spec.no_line_feed. apply negb_true_iff.
    apply (split_char_pieces_lack_separator nl_char reply).
    rewrite Hsplit. apply List.find_some in Hfind as [Hin _]. exact Hin. }
  split; [|split].
  - intros Hno. unfold sanitize_response. fold reply.
    rewrite (contains_fence_strip content
             : contains fence reply = contains fence content).
    rewrite Hno. reflexivity.
  - exact Hblock.
  - intros block line Hb Hfirst Hline. apply (Hblock block line Hb).
    apply first_nonempty_is_first_code_line; assumption.
Qed.

Lemma sanitize_response_takes_first_block_line_witness :
  sanitize_response (fence ++ "python" ++ nl ++ nl ++ "    return x + 1" ++ nl
                     ++ "    return x" ++ nl ++ fence ++ nl)
  = "    return x + 1"
  /\ sanitize_response ("  result = x" ++ nl) = "result = x".
Proof.
  split.
  - refine (proj1 (proj1 (proj2 (sanitize_response_takes_first_block_line
              (fence ++ "python" ++ nl ++ nl ++ "    return x + 1" ++ nl
               ++ "    return x" ++ nl ++ fence ++ nl)))
              [""; "    return x + 1"; "    return x"] "    return x + 1" _ _));
      reflexivity.
  - refine (proj1 (sanitize_response_takes_first_block_line
                     ("  result = x" ++ nl)) _).
    reflexivity.
Defined.

(** C9 (as stated) fails.  A reply of two lines without fences is stored
    with both lines; inside a fenced block a line of blanks, which is not
    empty, is passed over for the line after it; and a line of the block
    that holds a carriage return is stored with it, a text of two lines for
    [splitlines] and for a file read in text mode, although it holds no line
    feed. *)
Lemma sanitized_reply_not_always_one_block_line :
  (contains fence ("x = 1" ++ nl ++ "y = 2") = false
   /\ sanitize_response ("x = 1" ++ nl ++ "y = 2") = "x = 1" ++ nl ++ "y = 2"
   /\ Spec.no_line_feed (sanitize_response ("x = 1" ++ nl ++ "y = 2")) = false
   /\ split_char nl_char (sanitize_response ("x = 1" ++ nl ++ "y = 2"))
      = ["x = 1"; "y = 2"])
  /\ (Spec.fenced_block
        (split_char nl_char
           (strip (fence ++ nl ++ "   " ++ nl ++ "x = 1" ++ nl ++ fence)))
      = Some ["   "; "x = 1"]
      /\ Spec.first_nonempty_line ["   "; "x = 1"] = Some "   "
      /\ sanitize_response (fence ++ nl ++ "   " ++ nl ++ "x = 1" ++ nl ++ fence)
         = "x = 1")
  /\ (let stored :=
        sanitize_response (fence ++ nl ++ "x = 1" ++ String cr_char "y = 2"
                           ++ nl ++ fence) in
      stored = "x = 1" ++ String cr_char "y = 2"
      /\ Spec.no_line_feed stored = true
      /\ splitlines stored = ["x = 1"; "y = 2"]
      /\ readlines (universal_newlines stored) = ["x = 1" ++ nl; "y = 2"]).
Proof. repeat split; reflexivity. Qed.

(** The scan starts at the first line of the reply, not at the fence: with
    prose ahead of the fence it takes the prose line, although the comment in
    the code speaks of extracting the code from the block. *)
Lemma prose_ahead_of_fence_is_taken :
  split_char nl_char ("Fix:" ++ nl ++ fence ++ nl ++ "x = 1" ++ nl ++ fence)
  = ["Fix:"; fence; "x = 1"; fence]
  /\ sanitize_response ("Fix:" ++ nl ++ fence ++ nl ++ "x = 1" ++ nl ++ fence)
     = "Fix:".
Proof. split; reflexivity. Qed.

(** ** The defect localizer: the context window *)

Lemma find_def_in_range (lines : list string) (k : nat) :
  (k <= length lines)%nat -> exists found, find_def lines k = inr found.
Proof.
  induction k as [|i IH]; intros Hk; cbn [find_def]; [eauto|].
  destruct (lookup_lt_is_Some_2 lines i ltac:(lia)) as [l ->].
  destruct (startswith (strip l) "def "); [eauto|]. apply IH. lia.
Qed.

(** For a line inside the file the window of [get_function_context] is the
    slice from index [max 0 (line_no - 5)] to [min len (line_no + 5)]: the
    lines numbered [line_no - 4] to [line_no + 5], clamped. *)
Lemma get_function_context_window (code : string) (line_no : Z) :
  let lines := splitlines code in
  1 <= line_no <= Z.of_nat (length lines) ->
  exists fc,
    get_function_context code line_no = inr fc
    /\ error_line fc = line_no
    /\ context_start_line fc = Z.max 1 (line_no - 4)
    /\ context_lines fc =
         take (Z.to_nat (Z.min (Z.of_nat (length lines)) (line_no + 5)
                         - Z.max 0 (line_no - 5)))
              (drop (Z.to_nat (Z.max 0 (line_no - 5))) lines).
Proof.
  intros lines Hin. unfold get_function_context. fold lines.
  destruct (find_def_in_range lines (Z.to_nat line_no) ltac:(lia)) as [found ->].
  eexists. split; [reflexivity|]. cbn [error_line context_start_line context_lines].
  split; [reflexivity|]. split; [lia|].
  unfold py_slice.
  replace (Z.min (Z.of_nat (length lines)) (line_no + 5) <? 0) with false
    by (symmetry; apply Z.ltb_ge; lia).
  replace (Z.min (Z.min (Z.of_nat (length lines)) (line_no + 5))
             (Z.of_nat (length lines)))
    with (Z.min (Z.of_nat (length lines)) (line_no + 5)) by lia.
  reflexivity.
Qed.

(** C8, the code at line 10 of a 20-line file: the window holds the ten
    lines 6 to 15 and starts at line 6; line 5, at distance 5 from the
    target, is left out. *)
Theorem function_context_window_at_line_10 :
  splitlines Demo.code20
    = (fun i => "l" ++ str_of_Z i) <$> seqZ 1 20
  /\ exists fc,
       get_function_context Demo.code20 10 = inr fc
       /\ context_lines fc
          = ["l6"; "l7"; "l8"; "l9"; "l10"; "l11"; "l12"; "l13"; "l14"; "l15"]
       /\ context_start_line fc = 6
       /\ ~ In "l5" (context_lines fc).
Proof.
  split; [reflexivity|]. eexists. split; [reflexivity|].
  cbn [context_lines context_start_line]. repeat split.
  intros Hin. repeat (destruct Hin as [Hin|Hin]; [discriminate Hin|]). exact Hin.
Qed.

(** The sibling [get_code_context] subtracts one before the radius: with
    radius 5 at the same place it renders the eleven lines 5 to 15. *)
Lemma code_context_window_at_line_10 :
  splitlines (get_code_context Demo.code20 10 5)
  = [ "      5: l5"; "      6: l6"; "      7: l7"; "      8: l8"; "      9: l9";
      ">>>  10: l10"; "     11: l11"; "     12: l12"; "     13: l13";
      "     14: l14"; "     15: l15" ].
Proof. reflexivity. Qed.

(** ** The defect localizer: line extraction *)

Lemma plus_then_inv ic a k s r :
  plus_then ic a k s = Some r -> exists pre t, s = pre ++ t /\ k t = Some r.
Proof.
  revert r. induction s as [|c s IH]; intros r; cbn [plus_then]; [discriminate|].
  destruct (atom_match ic a c); [|discriminate].
  destruct (plus_then ic a k s) as [r'|] eqn:E.
  - intros [= <-]. destruct (IH r' eq_refl) as (pre & t & -> & Hk).
    exists (String c pre), t. auto.
  - intros Hk. exists (String c ""), s. auto.
Qed.

Lemma group_then_inv ic a k s cap :
  group_then ic a k s = Some cap -> exists pre t r, s = pre ++ t /\ k t = Some r.
Proof.
  revert cap. induction s as [|c s IH]; intros cap; cbn [group_then]; [discriminate|].
  destruct (atom_match ic a c); [|discriminate].
  destruct (group_then ic a k s) as [cap'|] eqn:E.
  - intros _. destruct (IH cap' eq_refl) as (pre & t & r & -> & Hk).
    exists (String c pre), t, r. auto.
  - destruct (k s) as [r|] eqn:Hk; [|discriminate].
    intros _. exists (String c ""), s, r. auto.
Qed.

Lemma plus_then_mono ic a (k k' : string -> option string) s :
  (forall t, is_Some (k t) -> is_Some (k' t)) ->
  is_Some (plus_then ic a k s) -> is_Some (plus_then ic a k' s).
Proof.
  intros Hk. induction s as [|c s IH]; cbn [plus_then]; [auto|].
  destruct (atom_match ic a c); [|auto].
  destruct (plus_then ic a k s) as [r|].
  - intros _. destruct (IH ltac:(eauto)) as [r' ->]. eauto.
  - intros Hs. destruct (plus_then ic a k' s); eauto.
Qed.

Lemma group_then_mono ic a (k k' : string -> option string) s :
  (forall t, is_Some (k t) -> is_Some (k' t)) ->
  is_Some (group_then ic a k s) -> is_Some (group_then ic a k' s).
Proof.
  intros Hk. induction s as [|c s IH]; cbn [group_then]; [auto|].
  destruct (atom_match ic a c); [|auto].
  destruct (group_then ic a k s) as [r|].
  - intros _. destruct (IH ltac:(eauto)) as [r' ->]. eauto.
  - destruct (k s) as [r|] eqn:Hks; [|intros [? [=]]].
    intros _. destruct (Hk s ltac:(eauto)) as [r' ->].
    destruct (group_then ic a k' s); eauto.
Qed.

(** A match of [p ++ q] contains a match of [q] further along the text. *)
Lemma match_here_tail ic p q s cap :
  match_here ic (p ++ q)%list s = Some cap ->
  exists pre t cap', s = pre ++ t /\ match_here ic q t = Some cap'.
Proof.
  revert s cap. induction p as [|[a|a|a] p IH]; intros s cap.
  - intros H. exists "", s, cap. auto.
  - cbn [app match_here]. destruct s as [|c s]; [discriminate|].
    destruct (atom_match ic a c); [|discriminate].
    intros H. destruct (IH _ _ H) as (pre & t & cap' & -> & Hq).
    exists (String c pre), t, cap'. auto.
  - cbn [app match_here]. intros H.
    destruct (plus_then_inv _ _ _ _ _ H) as (pre1 & t1 & -> & H1).
    destruct (IH _ _ H1) as (pre & t & cap' & -> & Hq).
    exists (pre1 ++ pre), t, cap'. rewrite append_assoc. auto.
  - cbn [app match_here]. intros H.
    destruct (group_then_inv _ _ _ _ _ H) as (pre1 & t1 & r & -> & H1).
    destruct (IH _ _ H1) as (pre & t & cap' & -> & Hq).
    exists (pre1 ++ pre), t, cap'. rewrite append_assoc. auto.
Qed.

(** A text matched by [p ++ q] is matched by [p]. *)
Lemma match_here_front ic p q s :
  is_Some (match_here ic (p ++ q)%list s) -> is_Some (match_here ic p s).
Proof.
  revert s. induction p as [|[a|a|a] p IH]; intros s; cbn [app match_here].
  - eauto.
  - destruct s as [|c s]; [auto|]. destruct (atom_match ic a c); auto.
  - apply plus_then_mono. exact IH.
  - apply group_then_mono. exact IH.
Qed.

Lemma search_inv ic p s cap :
  search ic p s = Some cap ->
  exists pre t, s = pre ++ t /\ match_here ic p t = Some cap.
Proof.
  induction s as [|c s IH]; cbn [search].
  - destruct (match_here ic p "") eqn:E; [|discriminate].
    intros [= <-]. exists "", "". auto.
  - destruct (match_here ic p (String c s)) eqn:E.
    + intros [= <-]. exists "", (String c s). auto.
    + intros H. destruct (IH H) as (pre & t & -> & Ht).
      exists (String c pre), t. auto.
Qed.

Lemma search_finds ic p pre t :
  is_Some (match_here ic p t) -> is_Some (search ic p (pre ++ t)).
Proof.
  intros [cap Ht]. induction pre as [|c pre IH]; simpl.
  - destruct t; cbn [search]; rewrite Ht; eauto.
  - cbn [search]. destruct (match_here ic p (String c (pre ++ t))); eauto.
Qed.

(** A pattern that ends in a pattern [g], up to a trailing part, matches
    only texts in which [g] matches. *)
Lemma search_shadowed ic front g back s :
  search ic g s = None -> search ic (front ++ g ++ back)%list s = None.
Proof.
  intros Hg. destruct (search ic (front ++ g ++ back)%list s) as [cap|] eqn:E;
    [|reflexivity].
  destruct (search_inv _ _ _ _ E) as (pre & t & -> & Ht).
  destruct (match_here_tail _ _ _ _ _ Ht) as (pre' & t' & cap' & -> & Ht').
  assert (Hfront : is_Some (match_here ic g t')).
  { apply (match_here_front ic g back). rewrite Ht'. eauto. }
  apply (search_finds ic g (pre ++ pre')) in Hfront.
  rewrite append_assoc in Hfront. rewrite Hg in Hfront.
  destruct Hfront as [? [=]].
Qed.

Lemma capital_line_same (rest : list item) (s : string) :
  match_here true (lit "Line " ++ rest)%list s
  = match_here true (lit "line " ++ rest)%list s.
Proof. destruct s; reflexivity. Qed.

Lemma search_capital_line (rest : list item) (s : string) :
  search true (lit "Line " ++ rest)%list s = search true (lit "line " ++ rest)%list s.
Proof.
  induction s as [|c s IH]; cbn [search]; rewrite capital_line_same;
    [reflexivity|]. rewrite IH. reflexivity.
Qed.

(** When the first pattern of the list does not match, none of the four
    after it does. *)
Lemma generic_miss_is_total_miss (test_output : string) :
  search true (lit "line " ++ digits_group)%list test_output = None ->
  first_match patterns test_output = None.
Proof.
  intros Hg. unfold patterns. cbn [first_match]. rewrite Hg.
  rewrite (search_shadowed true
             (lit ("File " ++ dquote)%string ++ [Plus (NotChr dquote_char)]
              ++ lit (dquote ++ ", ")%string)%list
             (lit "line " ++ digits_group)%list [] test_output Hg
           : search true
               (lit ("File " ++ dquote)%string ++ [Plus (NotChr dquote_char)]
                ++ lit (dquote ++ ", line ")%string ++ digits_group)%list
               test_output = None).
  rewrite (search_shadowed true (lit "Error on ")
             (lit "line " ++ digits_group)%list [] test_output Hg
           : search true (lit "Error on line " ++ digits_group)%list test_output
             = None).
  rewrite (search_shadowed true (lit "at ")
             (lit "line " ++ digits_group)%list [] test_output Hg
           : search true (lit "at line " ++ digits_group)%list test_output = None).
  rewrite (search_capital_line (digits_group ++ lit ":")%list test_output).
  rewrite (search_shadowed true [] (lit "line " ++ digits_group)%list (lit ":")
             test_output Hg
           : search true (lit "line " ++ digits_group ++ lit ":")%list test_output
             = None).
  reflexivity.
Qed.

(** The first pattern of the list decides alone: whenever one of the four
    patterns after it matches, it matches too, and it is tried first. *)
Lemma later_patterns_never_decide (test_output : string) :
  extract_error_line_number test_output =
    match search true (lit "line " ++ digits_group)%list test_output with
    | Some cap => int_of_digits cap
    | None => 1
    end.
Proof.
  destruct (search true (lit "line " ++ digits_group)%list test_output) eqn:Hg.
  - unfold extract_error_line_number, patterns. cbn [first_match].
    rewrite Hg. reflexivity.
  - unfold extract_error_line_number.
    rewrite (generic_miss_is_total_miss test_output Hg). reflexivity.
Qed.

(** C6, the code on a report with a bare line reference ahead of a traceback
    frame: the generic pattern stands first in the list and its match, 5, is
    returned, although the more specific frame pattern matches with 10. *)
Theorem extract_line_prefers_generic_pattern :
  patterns !! 0%nat = Some (lit "line " ++ digits_group)%list
  /\ search true (lit "line " ++ digits_group)%list Demo.mixed_report = Some "5"
  /\ (exists frame, patterns !! 1%nat = Some frame
                    /\ search true frame Demo.mixed_report = Some "10")
  /\ extract_error_line_number Demo.mixed_report = 5.
Proof.
  split; [reflexivity|]. split; [reflexivity|]. split; [|reflexivity].
  eexists. split; reflexivity.
Qed.

(** The part of the claim that holds of the code: the number comes from the
    first pattern of the list that matches, and is 1 when none matches. *)
Lemma extract_line_first_match_or_default (test_output : string) :
  (forall i p cap,
     patterns !! i = Some p -> search true p test_output = Some cap ->
     (forall j q, (j < i)%nat -> patterns !! j = Some q ->
                  search true q test_output = None) ->
     extract_error_line_number test_output = int_of_digits cap)
  /\ ((forall p, In p patterns -> search true p test_output = None) ->
      extract_error_line_number test_output = 1).
Proof.
  unfold extract_error_line_number. generalize patterns as ps. intros ps. split.
  - induction ps as [|p0 ps IH]; intros i p cap Hi Hp Hbefore; [discriminate|].
    cbn [first_match]. destruct i as [|i]; cbn in Hi.
    + injection Hi as ->. rewrite Hp. reflexivity.
    + rewrite (Hbefore 0%nat p0 ltac:(lia) eq_refl).
      apply (IH i p cap Hi Hp). intros j q Hj Hq.
      apply (Hbefore (S j) q ltac:(lia) Hq).
  - induction ps as [|p0 ps IH]; intros Hnone; [reflexivity|].
    cbn [first_match]. rewrite (Hnone p0 ltac:(left; reflexivity)).
    apply IH. intros p Hp. apply Hnone. right. exact Hp.
Qed.

(** ** The repair controller *)

(** *** What each node does to the fields the router reads *)

Ltac node_cases :=
  unfold load_code_node, localize_defect_node, generate_patch_node,
    apply_patch_node, validate_patch_node, finish_success_node,
    finish_failure_node, catch, initialize_tools_and_llm, run_tests;
  try destruct (init_error _) eqn:?;
  cbv beta iota zeta;
  repeat match goal with
         | |- context [LoadCodeTool_call ?a ?b] =>
             destruct (LoadCodeTool_call a b) eqn:?
         | |- context [get_function_context ?a ?b] =>
             destruct (get_function_context a b) eqn:?
         | |- context [gemini ?e ?n ?p] => destruct (gemini e n p) eqn:?
         | |- context [ApplyPatchTool_call ?a ?b ?c ?d] =>
             destruct (ApplyPatchTool_call a b c d) as [[?|?] ?] eqn:?
         end;
  cbv beta iota zeta.

Ltac close_case :=
  solve [ left; repeat split; eauto
        | right; repeat split; try discriminate; eauto;
          solve [ left; discriminate | right; eauto ] ].

Section Run.
Variable env : Env.

(** Load: the world is untouched; it clears the error message exactly when
    the tools initialize and the file loads. *)
Lemma load_code_node_cases w s :
  exists s', load_code_node env w s = (w, s')
    /\ attempts s' = attempts s /\ max_attempts s' = max_attempts s
    /\ ((error_message s' = "" /\ init_error env = None
         /\ exists code, LoadCodeTool_call (files w) (file_path s) = inr code)
        \/ (error_message s' <> "" /\ success s' = false
            /\ (init_error env <> None
                \/ exists e, LoadCodeTool_call (files w) (file_path s) = inl e))).
Proof.
  node_cases; eexists; (split; [reflexivity|]); cbn; repeat split;
    close_case.
Qed.

Lemma localize_defect_node_cases w s :
  exists w' s', localize_defect_node env w s = (w', s')
    /\ attempts s' = attempts s /\ max_attempts s' = max_attempts s
    /\ files w' = files w /\ llm_calls w' = llm_calls w
    /\ ((error_message s' = error_message s /\ init_error env = None
         /\ test_runs w' = S (test_runs w))
        \/ (error_message s' <> "" /\ success s' = false)).
Proof.
  node_cases; eexists _, _; (split; [reflexivity|]); cbn; repeat split;
    close_case.
Qed.

Lemma generate_patch_node_cases w s :
  exists w' s', generate_patch_node env w s = (w', s')
    /\ max_attempts s' = max_attempts s /\ tests_passed s' = tests_passed s
    /\ files w' = files w /\ test_runs w' = test_runs w
    /\ ((error_message s' = error_message s /\ attempts s' = attempts s + 1
         /\ init_error env = None
         /\ exists content,
              gemini env (llm_calls w) (prompt_input_of s) = Response content
              /\ patch_line s' = sanitize_response content)
        \/ (error_message s' <> "" /\ success s' = false
            /\ attempts s' = attempts s
            /\ (init_error env <> None
                \/ exists m, gemini env (llm_calls w) (prompt_input_of s)
                             = LlmRaises m))).
Proof.
  node_cases; eexists _, _; (split; [reflexivity|]); cbn; repeat split;
    close_case.
Qed.

Lemma apply_patch_node_cases w s :
  exists w' s', apply_patch_node env w s = (w', s')
    /\ attempts s' = attempts s /\ max_attempts s' = max_attempts s
    /\ tests_passed s' = tests_passed s
    /\ test_runs w' = test_runs w /\ llm_calls w' = llm_calls w
    /\ ((error_message s' = error_message s /\ init_error env = None)
        \/ (error_message s' <> "" /\ success s' = false)).
Proof.
  node_cases; eexists _, _; (split; [reflexivity|]); cbn; repeat split;
    close_case.
Qed.

Lemma validate_patch_node_cases w s :
  exists w' s', validate_patch_node env w s = (w', s')
    /\ attempts s' = attempts s /\ max_attempts s' = max_attempts s
    /\ files w' = files w /\ llm_calls w' = llm_calls w
    /\ ((error_message s' = error_message s /\ init_error env = None
         /\ test_runs w' = S (test_runs w)
         /\ test_output s' = RunTestsTool_call (tester env (test_runs w))
         /\ tests_passed s' = output_passes (RunTestsTool_call (tester env (test_runs w))))
        \/ (error_message s' <> "" /\ success s' = false
            /\ init_error env <> None)).
Proof.
  node_cases; eexists _, _; (split; [reflexivity|]); cbn; repeat split;
    close_case.
Qed.

Lemma finish_success_node_cases w s :
  exists s', finish_success_node env w s = (w, s')
    /\ attempts s' = attempts s /\ max_attempts s' = max_attempts s
    /\ ((error_message s' = error_message s /\ success s' = true
         /\ init_error env = None)
        \/ (error_message s' <> "" /\ success s' = false
            /\ init_error env <> None)).
Proof.
  node_cases; eexists; (split; [reflexivity|]); cbn; repeat split;
    close_case.
Qed.

(** *** Running the graph *)

Lemma exec_END n w s : exec n env (END, w, s) = (END, w, s).
Proof. destruct n; reflexivity. Qed.

Lemma step_None c : step env c = None -> node_of c = END.
Proof.
  destruct c as [[n w] s]. destruct n; cbn [step]; try reflexivity;
    repeat match goal with
           | |- context [let '(_, _) := ?x in _] => destruct x
           end; discriminate.
Qed.

Lemma exec_at_END n c : node_of c = END -> exec n env c = c.
Proof.
  destruct c as [[nd w] s]. cbn. intros ->. apply exec_END.
Qed.

Lemma exec_add n m c : exec (n + m) env c = exec m env (exec n env c).
Proof.
  revert c. induction n as [|n IH]; intros c; [reflexivity|].
  cbn [Nat.add exec]. destruct (step env c) as [c'|] eqn:E; [apply IH|].
  symmetry. apply exec_at_END, (step_None c E).
Qed.

Lemma exec_stable N n c :
  node_of (exec N env c) = END -> (N <= n)%nat -> exec n env c = exec N env c.
Proof.
  intros HN Hle. replace n with (N + (n - N))%nat by lia.
  rewrite exec_add. apply exec_at_END, HN.
Qed.

Lemma reachable_exec n c : reachable env c (exec n env c).
Proof.
  revert c. induction n as [|n IH]; intros c; [apply rtc_refl|].
  cbn [exec]. destruct (step env c) as [c'|] eqn:E; [|apply rtc_refl].
  eapply rtc_l; [exact E|apply IH].
Qed.

(** A path that did not stop early continues with the path of the
    configuration it reached. *)
Lemma path_add n m c :
  length (path n env c) = S n ->
  path (n + m) env c = (take n (path n env c) ++ path m env (exec n env c))%list.
Proof.
  revert c. induction n as [|n IH]; intros c Hlen.
  - cbn [Nat.add take exec app]. reflexivity.
  - cbn [Nat.add path exec] in *. destruct (step env c) as [c'|] eqn:E.
    + cbn [take app length] in *. f_equal. apply IH. lia.
    + cbn [length] in Hlen. lia.
Qed.

Lemma no_system_error_checked N c0 :
  (1 <= N)%nat ->
  node_of (exec N env c0) = END ->
  Spec.no_system_error_upto N env c0 = true ->
  Spec.no_system_error env c0.
Proof.
  intros HN HEND Hcheck n Hn. unfold Spec.no_system_error_upto in Hcheck.
  rewrite forallb_forall in Hcheck.
  destruct (Nat.le_gt_cases n N) as [Hle|Hgt].
  - apply String.eqb_eq, Hcheck, in_seq. lia.
  - rewrite (exec_stable N n c0 HEND ltac:(lia)).
    apply String.eqb_eq, Hcheck, in_seq. lia.
Qed.

(** *** The bound on [attempts] *)

Lemma step_keeps_attempts_invariant M c c' :
  step env c = Some c' ->
  Spec.attempts_invariant M c -> Spec.attempts_invariant M c'.
Proof.
  destruct c as [[n w] s]. unfold Spec.attempts_invariant. cbn.
  intros Hstep [HM Ha]. destruct n; cbn [step] in Hstep.
  - destruct (load_code_node_cases w s) as (s' & E & A & Mx & _).
    rewrite E in Hstep. injection Hstep as <-. cbn. lia.
  - destruct (localize_defect_node_cases w s) as (w' & s' & E & A & Mx & _).
    rewrite E in Hstep. injection Hstep as <-. cbn. lia.
  - destruct (generate_patch_node_cases w s)
      as (w' & s' & E & Mx & _ & _ & _ & [(_ & A & _)|(_ & _ & A & _)]);
      rewrite E in Hstep; injection Hstep as <-; cbn; lia.
  - destruct (apply_patch_node_cases w s) as (w' & s' & E & A & Mx & _).
    rewrite E in Hstep. injection Hstep as <-. cbn. lia.
  - destruct (validate_patch_node_cases w s) as (w' & s' & E & A & Mx & _).
    rewrite E in Hstep. injection Hstep as <-. cbn.
    split; [lia|]. unfold should_continue_repair.
    destruct (negb (error_message s' =? "")%string); [lia|].
    destruct (tests_passed s'); [lia|].
    destruct (Z.leb_spec (max_attempts s') (attempts s')); lia.
  - destruct (finish_success_node_cases w s) as (s' & E & A & Mx & _).
    rewrite E in Hstep. injection Hstep as <-. cbn. lia.
  - injection Hstep as <-. cbn. lia.
  - discriminate.
Qed.

Lemma attempts_invariant_reachable M c0 c :
  Spec.attempts_invariant M c0 -> reachable env c0 c ->
  Spec.attempts_invariant M c.
Proof.
  intros H0 Hreach. induction Hreach as [|x y z Hxy _ IH]; [exact H0|].
  apply IH. eapply step_keeps_attempts_invariant; eauto.
Qed.

Lemma attempts_invariant_bound M c :
  Spec.attempts_invariant M c -> attempts (state_of c) <= max_attempts (state_of c).
Proof.
  intros [HM Ha]. rewrite HM. destruct (node_of c); lia.
Qed.

(** *** The stages ahead of the loop, and one turn of the loop *)

Lemma load_then_localize w s :
  exists s1 w2 s2,
    step env (load_code, w, s) = Some (localize_defect, w, s1)
    /\ step env (localize_defect, w, s1) = Some (generate_patch, w2, s2)
    /\ attempts s2 = attempts s /\ max_attempts s2 = max_attempts s
    /\ llm_calls w2 = llm_calls w
    /\ (error_message s1 = "" \/
        (error_message s1 <> "" /\
         (init_error env <> None
          \/ exists e, LoadCodeTool_call (files w) (file_path s) = inl e)))
    /\ (error_message s1 = "" ->
        exists code, LoadCodeTool_call (files w) (file_path s) = inr code)
    /\ (error_message s1 <> "" -> error_message s2 <> "")
    /\ (error_message s2 = "" ->
        error_message s1 = "" /\ init_error env = None
        /\ test_runs w2 = S (test_runs w)).
Proof.
  destruct (load_code_node_cases w s) as (s1 & E1 & A1 & M1 & C1).
  destruct (localize_defect_node_cases w s1)
    as (w2 & s2 & E2 & A2 & M2 & _ & L2 & C2).
  exists s1, w2, s2. cbn [step]. rewrite E1, E2.
  repeat apply conj; try congruence.
  - destruct C1 as [(? & _)|(? & _ & ?)]; auto.
  - intros H1. destruct C1 as [(_ & _ & ?)|(? & _)]; [auto|congruence].
  - intros H1. destruct C2 as [(-> & _)|(? & _)]; auto.
  - intros H2. destruct C2 as [(E & ? & ?)|(? & _)]; [|congruence].
    repeat apply conj; congruence.
Qed.

Lemma route_on_error s :
  error_message s <> "" -> should_continue_repair s = finish_failure.
Proof.
  intros H. unfold should_continue_repair.
  destruct (String.eqb_spec (error_message s) ""); [contradiction|reflexivity].
Qed.

Lemma route_without_error s :
  error_message s = "" ->
  should_continue_repair s =
    if tests_passed s then finish_success
    else if max_attempts s <=? attempts s then finish_failure
    else generate_patch.
Proof. intros H. unfold should_continue_repair. rewrite H. reflexivity. Qed.

Lemma run_load_localize w s :
  exists w2 s2,
    exec 2 env (start w s) = (generate_patch, w2, s2)
    /\ path 2 env (start w s) = [load_code; localize_defect; generate_patch]
    /\ attempts s2 = attempts s /\ max_attempts s2 = max_attempts s
    /\ llm_calls w2 = llm_calls w
    /\ ((exists e, LoadCodeTool_call (files w) (file_path s) = inl e) ->
        error_message (state_of (exec 1 env (start w s))) <> ""
        /\ error_message s2 <> "")
    /\ (error_message s2 = "" ->
        init_error env = None /\ test_runs w2 = S (test_runs w)).
Proof.
  destruct (load_then_localize w s)
    as (s1 & w2 & s2 & S1 & S2 & A2 & M2 & L2 & C1 & Hok1 & St & Hok2).
  exists w2, s2. unfold start. cbn [exec path fst snd]. rewrite S1.
  cbn [exec path fst snd]. rewrite S2. cbn [state_of snd].
  repeat apply conj; try reflexivity; try assumption.
  - intros [e He].
    assert (H1 : error_message s1 <> "").
    { destruct C1 as [H|[H _]]; [|exact H].
      destruct (Hok1 H) as [code Hc]. congruence. }
    auto.
  - intros H2. destruct (Hok2 H2) as (_ & ? & ?). auto.
Qed.

Lemma run_attempt_cycle w s :
  exists w5 s5,
    exec 3 env (generate_patch, w, s) = (should_continue_repair s5, w5, s5)
    /\ path 3 env (generate_patch, w, s)
       = [generate_patch; apply_patch; validate_patch; should_continue_repair s5]
    /\ max_attempts s5 = max_attempts s
    /\ (attempts s5 = attempts s + 1
        /\ init_error env = None
        /\ (exists content,
              gemini env (llm_calls w) (prompt_input_of s) = Response content)
        \/ attempts s5 = attempts s
           /\ error_message s5 <> ""
           /\ (init_error env <> None
               \/ exists m, gemini env (llm_calls w) (prompt_input_of s)
                            = LlmRaises m))
    /\ (error_message s <> "" -> error_message s5 <> "")
    /\ (error_message s5 = "" ->
        init_error env = None
        /\ attempts s5 = attempts s + 1
        /\ test_runs w5 = S (test_runs w)
        /\ test_output s5 = RunTestsTool_call (tester env (test_runs w))
        /\ tests_passed s5 = output_passes (RunTestsTool_call (tester env (test_runs w)))).
Proof.
  destruct (generate_patch_node_cases w s)
    as (w3 & s3 & E3 & M3 & _ & _ & T3 & C3).
  destruct (apply_patch_node_cases w3 s3)
    as (w4 & s4 & E4 & A4 & M4 & _ & T4 & _ & C4).
  destruct (validate_patch_node_cases w4 s4)
    as (w5 & s5 & E5 & A5 & M5 & _ & _ & C5).
  exists w5, s5. cbn [exec path step fst snd]. rewrite E3.
  cbn [exec path step fst snd]. rewrite E4.
  cbn [exec path step fst snd]. rewrite E5.
  cbn [exec path step fst snd].
  assert (Hsticky34 : error_message s3 <> "" -> error_message s4 <> "").
  { intros H. destruct C4 as [(-> & _)|(? & _)]; auto. }
  assert (Hsticky45 : error_message s4 <> "" -> error_message s5 <> "").
  { intros H. destruct C5 as [(-> & _)|(? & _)]; auto. }
  repeat apply conj; try reflexivity; try congruence.
  - destruct C3 as [(_ & ? & ? & content & ? & _)|(? & _ & ? & ?)].
    + left. repeat apply conj; [congruence|assumption|eauto].
    + right. repeat apply conj; [congruence|auto|assumption].
  - intros H. apply Hsticky45, Hsticky34.
    destruct C3 as [(-> & _)|(? & _)]; auto.
  - intros H5.
    destruct C5 as [(H45 & ? & ? & ? & ?)|(? & _)]; [|congruence].
    destruct C4 as [(H34 & _)|(? & _)]; [|congruence].
    destruct C3 as [(H3 & ? & _)|(? & _)]; [|congruence].
    repeat apply conj; congruence.
Qed.

End Run.

(** *** Terminal states *)

(** C1 (as amended): when loading the source file fails, Load sets the
    error message; the edges out of Load, Localize, Generate and Apply are
    unconditional, so these stages and Validate still run once each; the
    router then sends the run to the Failure terminal state, with the error
    message set and success false.  The attempt counter has grown by one if
    the model answered in Generate, and is unchanged if Generate raised. *)
Theorem load_failure_ends_in_failure (env : Env) (w : World) (s : APRState) (e : exn) :
  LoadCodeTool_call (files w) (file_path s) = inl e ->
  let c0 := start w s in
  path 6 env c0 = [load_code; localize_defect; generate_patch; apply_patch;
                   validate_patch; finish_failure; END]
  /\ node_of (exec 6 env c0) = END
  /\ error_message (state_of (exec 1 env c0)) <> ""
  /\ error_message (state_of (exec 6 env c0)) <> ""
  /\ success (state_of (exec 6 env c0)) = false
  /\ (attempts (state_of (exec 6 env c0)) = attempts s + 1
      /\ init_error env = None
      /\ (exists content,
            gemini env (llm_calls w) (prompt_input_of (state_of (exec 2 env c0)))
            = Response content)
      \/ attempts (state_of (exec 6 env c0)) = attempts s
         /\ (init_error env <> None
             \/ exists m,
                  gemini env (llm_calls w) (prompt_input_of (state_of (exec 2 env c0)))
                  = LlmRaises m)).
Proof.
  intros Hload c0.
  destruct (run_load_localize env w s) as (w2 & s2 & X2 & P2 & A2 & M2 & L2 & Hbad & _).
  destruct (Hbad (ex_intro _ e Hload)) as [Hb1 Hb2].
  destruct (run_attempt_cycle env w2 s2) as (w5 & s5 & X3 & P3 & M5 & C & St & _).
  pose proof (St Hb2) as Hb5. rewrite (route_on_error s5 Hb5) in X3, P3.
  fold c0 in X2, P2, Hb1.
  assert (X6 : exec 6 env c0 = (END, w5, set_success s5 false)).
  { replace 6%nat with (2 + (3 + 1))%nat by reflexivity.
    rewrite !exec_add, X2, X3. reflexivity. }
  rewrite X6, X2. cbn [node_of state_of fst snd]. repeat apply conj.
  - replace 6%nat with (2 + 4)%nat by reflexivity.
    rewrite path_add by (rewrite P2; reflexivity). rewrite P2, X2.
    replace 4%nat with (3 + 1)%nat by reflexivity.
    rewrite path_add by (rewrite P3; reflexivity). rewrite P3, X3. reflexivity.
  - reflexivity.
  - exact Hb1.
  - exact Hb5.
  - reflexivity.
  - cbn [attempts set_success]. rewrite <- A2, <- L2.
    destruct C as [(? & ? & ?)|(? & _ & ?)]; [left|right]; auto.
Qed.

(** C2: with a budget of three and a fresh counter, when no stage signals a
    system fault and every validating test run (the three runs of the
    harness after Localize's) fails, the run is Load,
    Localize, three turns of Generate-Apply-Validate, then the Failure
    terminal state with attempts = 3; and whatever the environment does, no
    reachable configuration has attempts above max_attempts. *)
Theorem exhausted_budget_ends_in_failure (env : Env) (w : World) (s : APRState) :
  max_attempts s = 3 -> attempts s = 0 ->
  Spec.no_system_error env (start w s) ->
  (forall k, (test_runs w < k <= test_runs w + 3)%nat ->
             output_passes (RunTestsTool_call (tester env k)) = false) ->
  let c0 := start w s in
  path 12 env c0 = [load_code; localize_defect;
                    generate_patch; apply_patch; validate_patch;
                    generate_patch; apply_patch; validate_patch;
                    generate_patch; apply_patch; validate_patch;
                    finish_failure; END]
  /\ node_of (exec 12 env c0) = END
  /\ attempts (state_of (exec 12 env c0)) = 3
  /\ success (state_of (exec 12 env c0)) = false
  /\ forall c, reachable env c0 c ->
               attempts (state_of c) <= max_attempts (state_of c)
               /\ max_attempts (state_of c) = 3.
Proof.
  intros Hmax Hatt Hnoerr Hfail c0.
  destruct (run_load_localize env w s) as (w2 & s2 & X2 & P2 & A2 & M2 & _ & _ & Hok2).
  fold c0 in X2, P2.
  assert (N2 : error_message s2 = "").
  { pose proof (Hnoerr 2%nat ltac:(lia)) as N. fold c0 in N. rewrite X2 in N. exact N. }
  destruct (Hok2 N2) as [Hinit T2].
  (* first turn *)
  destruct (run_attempt_cycle env w2 s2) as (w5 & s5 & X3 & P3 & M5 & _ & _ & Hok5).
  assert (X5 : exec 5 env c0 = (should_continue_repair s5, w5, s5)).
  { replace 5%nat with (2 + 3)%nat by reflexivity. rewrite exec_add, X2. exact X3. }
  assert (N5 : error_message s5 = "").
  { pose proof (Hnoerr 5%nat ltac:(lia)) as N. fold c0 in N. rewrite X5 in N. exact N. }
  destruct (Hok5 N5) as (_ & A5 & T5 & _ & TP5).
  rewrite Hfail in TP5 by lia.
  assert (R5 : should_continue_repair s5 = generate_patch).
  { rewrite route_without_error, TP5 by exact N5.
    replace (max_attempts s5 <=? attempts s5) with false; [reflexivity|].
    symmetry. apply Z.leb_gt. lia. }
  rewrite R5 in X3, P3, X5.
  (* second turn *)
  destruct (run_attempt_cycle env w5 s5) as (w8 & s8 & X6 & P6 & M8 & _ & _ & Hok8).
  assert (X8 : exec 8 env c0 = (should_continue_repair s8, w8, s8)).
  { replace 8%nat with (5 + 3)%nat by reflexivity. rewrite exec_add, X5. exact X6. }
  assert (N8 : error_message s8 = "").
  { pose proof (Hnoerr 8%nat ltac:(lia)) as N. fold c0 in N. rewrite X8 in N. exact N. }
  destruct (Hok8 N8) as (_ & A8 & T8 & _ & TP8).
  rewrite Hfail in TP8 by lia.
  assert (R8 : should_continue_repair s8 = generate_patch).
  { rewrite route_without_error, TP8 by exact N8.
    replace (max_attempts s8 <=? attempts s8) with false; [reflexivity|].
    symmetry. apply Z.leb_gt. lia. }
  rewrite R8 in X6, P6, X8.
  (* third turn *)
  destruct (run_attempt_cycle env w8 s8) as (w11 & s11 & X9 & P9 & M11 & _ & _ & Hok11).
  assert (X11 : exec 11 env c0 = (should_continue_repair s11, w11, s11)).
  { replace 11%nat with (8 + 3)%nat by reflexivity. rewrite exec_add, X8. exact X9. }
  assert (N11 : error_message s11 = "").
  { pose proof (Hnoerr 11%nat ltac:(lia)) as N. fold c0 in N. rewrite X11 in N. exact N. }
  destruct (Hok11 N11) as (_ & A11 & T11 & _ & TP11).
  rewrite Hfail in TP11 by lia.
  assert (R11 : should_continue_repair s11 = finish_failure).
  { rewrite route_without_error, TP11 by exact N11.
    replace (max_attempts s11 <=? attempts s11) with true; [reflexivity|].
    symmetry. apply Z.leb_le. lia. }
  rewrite R11 in X9, P9, X11.
  assert (X12 : exec 12 env c0 = (END, w11, set_success s11 false)).
  { replace 12%nat with (11 + 1)%nat by reflexivity. rewrite exec_add, X11.
    reflexivity. }
  rewrite X12. cbn [node_of state_of fst snd]. repeat apply conj.
  - replace 12%nat with (2 + (3 + (3 + (3 + 1))))%nat by reflexivity.
    rewrite path_add by (rewrite P2; reflexivity). rewrite P2, X2.
    rewrite path_add by (rewrite P3; reflexivity). rewrite P3, X3.
    rewrite path_add by (rewrite P6; reflexivity). rewrite P6, X6.
    rewrite path_add by (rewrite P9; reflexivity). rewrite P9, X9.
    reflexivity.
  - reflexivity.
  - cbn [attempts set_success]. lia.
  - reflexivity.
  - intros c Hc.
    assert (Hinv : Spec.attempts_invariant 3 c).
    { apply (attempts_invariant_reachable env 3 c0 c); [|exact Hc].
      split; cbn; lia. }
    split; [apply (attempts_invariant_bound 3 c Hinv)|apply Hinv].
Qed.

(** C3: with a fresh counter, when no stage signals a system fault and the
    test output of the first validation (the second run of the harness, the
    first being Localize's) holds neither FAIL nor ERROR in any letter case,
    the run is Load, Localize, Generate, Apply, Validate, then the Success
    terminal state with attempts = 1 and success true. *)
Theorem first_passing_patch_ends_in_success (env : Env) (w : World) (s : APRState) :
  attempts s = 0 ->
  Spec.no_system_error env (start w s) ->
  Spec.contains_ci "FAIL" (RunTestsTool_call (tester env (S (test_runs w)))) = false ->
  Spec.contains_ci "ERROR" (RunTestsTool_call (tester env (S (test_runs w)))) = false ->
  let c0 := start w s in
  path 6 env c0 = [load_code; localize_defect; generate_patch; apply_patch;
                   validate_patch; finish_success; END]
  /\ node_of (exec 6 env c0) = END
  /\ attempts (state_of (exec 6 env c0)) = 1
  /\ success (state_of (exec 6 env c0)) = true
  /\ tests_passed (state_of (exec 6 env c0)) = true
  /\ test_output (state_of (exec 6 env c0))
     = RunTestsTool_call (tester env (S (test_runs w))).
Proof.
  intros Hatt Hnoerr Hfail Herror c0.
  destruct (run_load_localize env w s) as (w2 & s2 & X2 & P2 & A2 & M2 & _ & _ & Hok2).
  fold c0 in X2, P2.
  assert (N2 : error_message s2 = "").
  { pose proof (Hnoerr 2%nat ltac:(lia)) as N. fold c0 in N. rewrite X2 in N. exact N. }
  destruct (Hok2 N2) as [Hinit T2].
  destruct (run_attempt_cycle env w2 s2) as (w5 & s5 & X3 & P3 & M5 & _ & _ & Hok5).
  assert (X5 : exec 5 env c0 = (should_continue_repair s5, w5, s5)).
  { replace 5%nat with (2 + 3)%nat by reflexivity. rewrite exec_add, X2. exact X3. }
  assert (N5 : error_message s5 = "").
  { pose proof (Hnoerr 5%nat ltac:(lia)) as N. fold c0 in N. rewrite X5 in N. exact N. }
  destruct (Hok5 N5) as (_ & A5 & T5 & TO5 & TP5).
  rewrite T2 in TO5, TP5.
  rewrite output_passes_ci, Hfail, Herror in TP5. cbn [negb andb] in TP5.
  assert (R5 : should_continue_repair s5 = finish_success).
  { rewrite route_without_error, TP5 by exact N5. reflexivity. }
  rewrite R5 in X3, P3, X5.
  assert (F : finish_success_node env w5 s5 = (w5, set_success s5 true)).
  { unfold finish_success_node, initialize_tools_and_llm. rewrite Hinit. reflexivity. }
  assert (S6 : step env (finish_success, w5, s5) = Some (END, w5, set_success s5 true)).
  { cbn [step]. rewrite F. reflexivity. }
  assert (X6 : exec 6 env c0 = (END, w5, set_success s5 true)).
  { replace 6%nat with (5 + 1)%nat by reflexivity. rewrite exec_add, X5.
    cbn [exec]. rewrite S6. reflexivity. }
  rewrite X6. cbn [node_of state_of fst snd]. repeat apply conj.
  - replace 6%nat with (2 + (3 + 1))%nat by reflexivity.
    rewrite path_add by (rewrite P2; reflexivity). rewrite P2, X2.
    rewrite path_add by (rewrite P3; reflexivity). rewrite P3, X3.
    cbn [path fst snd]. rewrite S6. reflexivity.
  - reflexivity.
  - cbn [attempts set_success]. lia.
  - reflexivity.
  - exact TP5.
  - exact TO5.
Qed.

(** The loop cannot go on: a run that enters Generate with [k] attempts
    left, or none, ends within [k] turns (one turn when none is left). *)
Lemma loop_terminates env (k : nat) :
  forall w s,
    max_attempts s - attempts s <= Z.of_nat k -> (1 <= k)%nat ->
    node_of (exec (3 * k + 1) env (generate_patch, w, s)) = END.
Proof.
  induction k as [|k IH]; intros w s Hleft Hk; [lia|].
  destruct (run_attempt_cycle env w s) as (w5 & s5 & X3 & _ & M5 & C & _ & _).
  replace (3 * S k + 1)%nat with (3 + (3 * k + 1))%nat by lia.
  rewrite exec_add, X3.
  unfold should_continue_repair.
  destruct (String.eqb_spec (error_message s5) "") as [Hno|Herr]; cbn [negb].
  - destruct (tests_passed s5).
    + replace (3 * k + 1)%nat with (S (3 * k)) by lia. cbn [exec step].
      destruct (finish_success_node_cases env w5 s5) as (s6 & -> & _).
      apply (f_equal node_of (exec_END env (3 * k) w5 s6)).
    + destruct (Z.leb_spec (max_attempts s5) (attempts s5)) as [Hle|Hlt].
      * replace (3 * k + 1)%nat with (S (3 * k)) by lia. cbn [exec step].
        apply (f_equal node_of (exec_END env (3 * k) w5 (set_success s5 false))).
      * destruct C as [(A5 & _)|(_ & Hbad & _)]; [|contradiction].
        apply IH; lia.
  - replace (3 * k + 1)%nat with (S (3 * k)) by lia. cbn [exec step].
    apply (f_equal node_of (exec_END env (3 * k) w5 (set_success s5 false))).
Qed.

(** Iterated without a bound, the graph reaches END within a number of
    super-steps fixed by the budget left at the start. *)
Lemma graph_terminates env w s :
  node_of (exec (2 + (3 * Z.to_nat (Z.max 1 (max_attempts s - attempts s)) + 1))
             env (start w s)) = END.
Proof.
  destruct (run_load_localize env w s) as (w2 & s2 & X2 & _ & A2 & M2 & _).
  rewrite exec_add, X2. apply loop_terminates; lia.
Qed.

(** While no stage signals a system fault and the validations fail, each
    turn of the loop leads back to Generate with one more attempt counted. *)
Lemma failing_turns env w s (j : nat) :
  Spec.no_system_error env (start w s) ->
  (forall k, (test_runs w < k <= test_runs w + j)%nat ->
             output_passes (RunTestsTool_call (tester env k)) = false) ->
  attempts s + Z.of_nat j < max_attempts s ->
  exists wj sj,
    exec (2 + 3 * j) env (start w s) = (generate_patch, wj, sj)
    /\ attempts sj = attempts s + Z.of_nat j
    /\ max_attempts sj = max_attempts s
    /\ test_runs wj = (test_runs w + 1 + j)%nat.
Proof.
  intros Hnoerr. induction j as [|j IH]; intros Hfail Hleft.
  - destruct (run_load_localize env w s)
      as (w2 & s2 & X2 & _ & A2 & M2 & _ & _ & Hok2).
    assert (N2 : error_message s2 = "").
    { pose proof (Hnoerr 2%nat ltac:(lia)) as N. rewrite X2 in N. exact N. }
    destruct (Hok2 N2) as [_ T2]. exists w2, s2.
    repeat apply conj; [exact X2|lia|exact M2|lia].
  - destruct IH as (wj & sj & Xj & Aj & Mj & Tj);
      [intros k Hk; apply Hfail; lia|lia|].
    destruct (run_attempt_cycle env wj sj)
      as (w5 & s5 & X3 & _ & M5 & _ & _ & Hok5).
    assert (X : exec (2 + 3 * S j) env (start w s)
                = (should_continue_repair s5, w5, s5)).
    { replace (2 + 3 * S j)%nat with ((2 + 3 * j) + 3)%nat by lia.
      rewrite exec_add, Xj. exact X3. }
    assert (N5 : error_message s5 = "").
    { pose proof (Hnoerr (2 + 3 * S j)%nat ltac:(lia)) as N.
      rewrite X in N. exact N. }
    destruct (Hok5 N5) as (_ & A5 & T5 & _ & TP5).
    rewrite Hfail in TP5 by lia.
    rewrite route_without_error, TP5 in X by exact N5.
    replace (max_attempts s5 <=? attempts s5) with false in X
      by (symmetry; apply Z.leb_gt; lia).
    exists w5, s5. repeat apply conj; [exact X|lia|congruence|lia].
Qed.

(** Two super-steps after Generate is entered, the run is in Validate. *)
Lemma generate_then_apply env w s :
  node_of (exec 2 env (generate_patch, w, s)) = validate_patch.
Proof.
  destruct (generate_patch_node_cases env w s) as (w3 & s3 & E3 & _).
  destruct (apply_patch_node_cases env w3 s3) as (w4 & s4 & E4 & _).
  cbn [exec step]. rewrite E3. cbn [exec step]. rewrite E4. reflexivity.
Qed.

(** The call of the graph under the recursion limit of 25 super-steps.  When
    at most seven attempts are left at the start, the run reaches END within
    2 + 3 * max(1, attempts left) + 1 <= 24 super-steps whatever the
    environment does, and the call returns the state the run ends with.
    When eight or more are left, no stage signals a system fault and the
    seven validations that fit in the limit fail, the limit is reached in
    the eighth turn, ahead of its validation, and the call raises
    GraphRecursionError instead of returning a state. *)
Theorem invoke_returns_within_recursion_limit env w s :
  (max_attempts s - attempts s <= 7 ->
   let n := (2 + (3 * Z.to_nat (Z.max 1 (max_attempts s - attempts s)) + 1))%nat in
   (n <= 24)%nat
   /\ exists w' s', exec n env (start w s) = (END, w', s')
                    /\ invoke env w s = Returned w' s')
  /\ (8 <= max_attempts s - attempts s ->
      Spec.no_system_error env (start w s) ->
      (forall k, (test_runs w < k <= test_runs w + 7)%nat ->
                 output_passes (RunTestsTool_call (tester env k)) = false) ->
      node_of (exec recursion_limit env (start w s)) = validate_patch
      /\ exists w', invoke env w s = GraphRecursionError w').
Proof.
  split.
  - intros Hleft n. assert (Hn : (n <= 24)%nat) by (unfold n; lia).
    split; [exact Hn|].
    pose proof (graph_terminates env w s) as HEND. fold n in HEND.
    unfold invoke.
    rewrite (exec_stable env n recursion_limit (start w s) HEND)
      by (unfold recursion_limit; lia).
    rewrite HEND. destruct (exec n env (start w s)) as [[nd w'] s'].
    cbn in HEND. subst nd. exists w', s'. split; reflexivity.
  - intros Hleft Hnoerr Hfail.
    destruct (failing_turns env w s 7 Hnoerr Hfail ltac:(lia))
      as (w7 & s7 & X & _).
    assert (Hnode : node_of (exec recursion_limit env (start w s))
                    = validate_patch).
    { change recursion_limit with ((2 + 3 * 7) + 2)%nat.
      rewrite exec_add, X. apply generate_then_apply. }
    split; [exact Hnode|]. unfold invoke. rewrite Hnode. eauto.
Qed.

Lemma invoke_returns_within_recursion_limit_witness :
  (exists w' s',
     exec 12 Demo.env_always_failing
       (start (Demo.world Demo.fs) (Demo.initial_state "prog.py")) = (END, w', s')
     /\ invoke Demo.env_always_failing (Demo.world Demo.fs)
          (Demo.initial_state "prog.py") = Returned w' s')
  /\ exists w',
       invoke Demo.env_always_failing (Demo.world Demo.fs)
         (Demo.session_with_budget "prog.py" 8) = GraphRecursionError w'.
Proof.
  split.
  - refine (proj2 (proj1 (invoke_returns_within_recursion_limit
                            Demo.env_always_failing (Demo.world Demo.fs)
                            (Demo.initial_state "prog.py")) _)).
    vm_compute. discriminate.
  - refine (proj2 (proj2 (invoke_returns_within_recursion_limit
                            Demo.env_always_failing (Demo.world Demo.fs)
                            (Demo.session_with_budget "prog.py" 8)) _ _ _)).
    + vm_compute. discriminate.
    + apply (no_system_error_checked _ 27); [lia| |]; vm_compute; reflexivity.
    + intros k _. reflexivity.
Defined.

(** *** The theorems on the sample sessions *)

Lemma load_failure_ends_in_failure_witness :
  path 6 Demo.env_always_failing
    (start (Demo.world ∅) (Demo.initial_state "prog.py"))
  = [load_code; localize_defect; generate_patch; apply_patch; validate_patch;
     finish_failure; END].
Proof.
  refine (proj1 (load_failure_ends_in_failure Demo.env_always_failing
                   (Demo.world ∅) (Demo.initial_state "prog.py")
                   (FileNotFoundError "Could not find file: prog.py") _)).
  reflexivity.
Defined.

(** C1 (as stated) fails: with the file missing, every stage runs and the
    session ends with one attempt counted, the model having been called. *)
Lemma missing_file_still_runs_every_stage :
  LoadCodeTool_call ∅ "prog.py"
    = inl (FileNotFoundError "Could not find file: prog.py")
  /\ attempts (Demo.initial_state "prog.py") = 0
  /\ path 6 Demo.env_always_failing
       (start (Demo.world ∅) (Demo.initial_state "prog.py"))
     = [load_code; localize_defect; generate_patch; apply_patch; validate_patch;
        finish_failure; END]
  /\ attempts (state_of (exec 6 Demo.env_always_failing
                           (start (Demo.world ∅) (Demo.initial_state "prog.py")))) = 1
  /\ llm_calls (world_of (exec 6 Demo.env_always_failing
                            (start (Demo.world ∅) (Demo.initial_state "prog.py")))) = 1%nat
  /\ test_runs (world_of (exec 6 Demo.env_always_failing
                            (start (Demo.world ∅) (Demo.initial_state "prog.py")))) = 2%nat.
Proof. repeat apply conj; vm_compute; reflexivity. Qed.

Lemma exhausted_budget_ends_in_failure_witness :
  path 12 Demo.env_always_failing
    (start (Demo.world Demo.fs) (Demo.initial_state "prog.py"))
  = [load_code; localize_defect;
     generate_patch; apply_patch; validate_patch;
     generate_patch; apply_patch; validate_patch;
     generate_patch; apply_patch; validate_patch;
     finish_failure; END]
  /\ attempts (state_of (exec 12 Demo.env_always_failing
                           (start (Demo.world Demo.fs) (Demo.initial_state "prog.py")))) = 3.
Proof.
  pose proof (exhausted_budget_ends_in_failure Demo.env_always_failing
                (Demo.world Demo.fs) (Demo.initial_state "prog.py")
                eq_refl eq_refl) as H.
  assert (Hclean : Spec.no_system_error Demo.env_always_failing
                     (start (Demo.world Demo.fs) (Demo.initial_state "prog.py"))).
  { apply (no_system_error_checked _ 12); [lia| |]; vm_compute; reflexivity. }
  specialize (H Hclean (fun k _ => eq_refl)).
  split; [exact (proj1 H)|exact (proj1 (proj2 (proj2 H)))].
Defined.

Lemma first_passing_patch_ends_in_success_witness :
  path 6 Demo.env_first_patch_passes
    (start (Demo.world Demo.fs) (Demo.initial_state "prog.py"))
  = [load_code; localize_defect; generate_patch; apply_patch; validate_patch;
     finish_success; END]
  /\ attempts (state_of (exec 6 Demo.env_first_patch_passes
                           (start (Demo.world Demo.fs) (Demo.initial_state "prog.py")))) = 1
  /\ success (state_of (exec 6 Demo.env_first_patch_passes
                          (start (Demo.world Demo.fs) (Demo.initial_state "prog.py")))) = true.
Proof.
  assert (Hclean : Spec.no_system_error Demo.env_first_patch_passes
                     (start (Demo.world Demo.fs) (Demo.initial_state "prog.py"))).
  { apply (no_system_error_checked _ 6); [lia| |]; vm_compute; reflexivity. }
  pose proof (first_passing_patch_ends_in_success Demo.env_first_patch_passes
                (Demo.world Demo.fs) (Demo.initial_state "prog.py")
                eq_refl Hclean eq_refl eq_refl) as H.
  split; [exact (proj1 H)|].
  split; [exact (proj1 (proj2 (proj2 H)))|exact (proj1 (proj2 (proj2 (proj2 H))))].
Defined.

(** * Further properties of the tools and of the graph *)

(** ** The patch applier: what is written, and where *)

Lemma append_nil_r (s : string) : s ++ "" = s.
Proof. induction s as [|c s IH]; simpl; [reflexivity|]. rewrite IH. reflexivity. Qed.

Lemma join_cons (x : string) (l : list string) : join (x :: l) = x ++ join l.
Proof.
  unfold join. destruct l as [|y l]; cbn [String.concat].
  - rewrite append_nil_r. reflexivity.
  - reflexivity.
Qed.

Lemma join_app (a b : list string) : join (a ++ b)%list = join a ++ join b.
Proof.
  induction a as [|x a IH]; [reflexivity|].
  change ((x :: a) ++ b)%list with (x :: (a ++ b)%list).
  rewrite !join_cons, IH, append_assoc. reflexivity.
Qed.

(** Joining the lines read gives back the text read. *)
Lemma join_readlines (s : string) : join (readlines s) = s.
Proof.
  induction s as [|c s IH]; [reflexivity|]. cbn [readlines].
  destruct (Ascii.eqb_spec c nl_char) as [->|Hc].
  - rewrite join_cons, IH. reflexivity.
  - destruct (readlines s) as [|h t] eqn:E.
    + rewrite <- IH. reflexivity.
    + rewrite join_cons. rewrite join_cons in IH. rewrite <- IH. reflexivity.
Qed.

(** The outcomes of the embedded call: the file system is the one given, or
    the one given with the code returned at the path. *)
Lemma apply_patch_call_cases
    (fs : gmap string entry) (path : string) (line_no : Z) (new_line : string) :
  let r := (ApplyPatchTool_call fs path line_no new_line).1 in
  let fs' := (ApplyPatchTool_call fs path line_no new_line).2 in
  (forall p, p <> path -> fs' !! p = fs !! p)
  /\ match r with
     | inl _ => fs' = fs
     | inr code => fs' = <[path := File code]> fs
                   /\ exists raw, fs !! path = Some (File raw)
     end.
Proof.
  unfold ApplyPatchTool_call, apply_patch_body.
  destruct (fs !! path) as [[raw|oserr]|] eqn:Hfile; cbn [fst snd]; auto.
  destruct ((line_no <? 1)
            || (Z.of_nat (length (readlines (universal_newlines raw))) <? line_no));
    cbn [fst snd]; auto.
  destruct (readlines (universal_newlines raw) !! Z.to_nat (line_no - 1));
    cbn [fst snd]; auto.
  split; [|eauto]. intros p Hp. apply lookup_insert_ne. congruence.
Qed.

(** The checks stand ahead of the write.  When the path holds no file that
    can be read, the tool raises with the file system as it was, and so it
    does when the line number is out of range; when the tool returns, the
    path held a readable file, the line number was in range, the path now
    holds exactly the code returned, and every other path is as it was. *)
Theorem apply_patch_checks_before_writing
    (fs : gmap string entry) (path : string) (line_no : Z) (new_line : string) :
  let r := (ApplyPatchTool_call fs path line_no new_line).1 in
  let fs' := (ApplyPatchTool_call fs path line_no new_line).2 in
  ((forall raw, fs !! path <> Some (File raw)) ->
   (exists e, r = inl e) /\ fs' = fs)
  /\ (forall raw, fs !! path = Some (File raw) ->
       (line_no < 1
        \/ Z.of_nat (length (readlines (universal_newlines raw))) < line_no) ->
       (exists e, r = inl e) /\ fs' = fs)
  /\ (forall code, r = inr code ->
       fs' = <[path := File code]> fs
       /\ (forall p, p <> path -> fs' !! p = fs !! p)
       /\ exists raw,
           fs !! path = Some (File raw)
           /\ 1 <= line_no <= Z.of_nat (length (readlines (universal_newlines raw)))).
Proof.
  unfold ApplyPatchTool_call, apply_patch_body.
  destruct (fs !! path) as [[raw|oserr]|] eqn:Hfile; cbn [fst snd].
  - destruct (Z.ltb_spec line_no 1) as [Hlow|Hlow];
      [|destruct (Z.ltb_spec
                    (Z.of_nat (length (readlines (universal_newlines raw))))
                    line_no) as [Hhigh|Hhigh]];
      cbn [orb fst snd].
    + repeat apply conj; [eauto|eauto|discriminate].
    + repeat apply conj; [eauto|eauto|discriminate].
    + destruct (readlines (universal_newlines raw) !! Z.to_nat (line_no - 1))
        as [original_line|] eqn:Hline; cbn [fst snd].
      * repeat apply conj.
        -- intros Hnone. destruct (Hnone raw eq_refl).
        -- intros raw' [= <-] [H|H]; lia.
        -- intros code [= <-]. repeat apply conj; [reflexivity| |].
           ++ intros p Hp. apply lookup_insert_ne. congruence.
           ++ exists raw. split; [reflexivity|lia].
      * repeat apply conj; [eauto|eauto|discriminate].
  - repeat apply conj; [eauto|discriminate|discriminate].
  - repeat apply conj; [eauto|discriminate|discriminate].
Qed.

Lemma apply_patch_checks_before_writing_witness :
  ((exists e, (ApplyPatchTool_call Demo.fs "other.py" 2 "return x + 1").1 = inl e)
   /\ (ApplyPatchTool_call Demo.fs "other.py" 2 "return x + 1").2 = Demo.fs)
  /\ ((exists e, (ApplyPatchTool_call Demo.fs "prog.py" 4 "return x + 1").1 = inl e)
      /\ (ApplyPatchTool_call Demo.fs "prog.py" 4 "return x + 1").2 = Demo.fs)
  /\ (ApplyPatchTool_call Demo.fs "prog.py" 2 "return x + 1").2
     = <["prog.py" := File ("def f(x):" ++ nl ++ "    return x + 1" ++ nl
                            ++ "y = f(2)" ++ nl)]> Demo.fs.
Proof.
  split; [|split].
  - refine (proj1 (apply_patch_checks_before_writing Demo.fs "other.py" 2
                     "return x + 1") _).
    intros raw. vm_compute. discriminate.
  - refine (proj1 (proj2 (apply_patch_checks_before_writing Demo.fs "prog.py" 4
                            "return x + 1")) Demo.prog_text _ _).
    + reflexivity.
    + right. vm_compute. reflexivity.
  - refine (proj1 (proj2 (proj2 (apply_patch_checks_before_writing Demo.fs
                                   "prog.py" 2 "return x + 1")) _ _)).
    reflexivity.
Defined.

(** The code of a successful call: the lines read, with the stored line at
    the target index. *)
Lemma apply_patch_success_code
    (fs fs' : gmap string entry) (path raw : string) (line_no : Z)
    (new_line code : string) :
  fs !! path = Some (File raw) ->
  ApplyPatchTool_call fs path line_no new_line = (inr code, fs') ->
  let lines := readlines (universal_newlines raw) in
  let i := Z.to_nat (line_no - 1) in
  exists original_line,
    lines !! i = Some original_line
    /\ code = join (<[i := indent_new_line original_line new_line]> lines).
Proof.
  intros Hfile Hcall lines i.
  unfold ApplyPatchTool_call, apply_patch_body in Hcall. rewrite Hfile in Hcall.
  fold lines in Hcall.
  destruct ((line_no <? 1) || (Z.of_nat (length lines) <? line_no));
    [discriminate|].
  fold i in Hcall.
  destruct (lines !! i) as [original_line|] eqn:Hline; [|discriminate].
  injection Hcall as <- _. exists original_line. split; reflexivity.
Qed.

(** Replacing one line of a list of lines, seen on the joined text. *)
Lemma join_insert (lines : list string) (i : nat) (old new : string) :
  lines !! i = Some old ->
  join lines = join (take i lines) ++ old ++ join (drop (S i) lines)
  /\ join (<[i := new]> lines)
     = join (take i lines) ++ new ++ join (drop (S i) lines).
Proof.
  intros Hline. pose proof (lookup_lt_Some _ _ _ Hline) as Hlt. split.
  - rewrite <- (take_drop_middle lines i old Hline) at 1.
    rewrite join_app, join_cons. reflexivity.
  - rewrite insert_take_drop by exact Hlt.
    rewrite join_app, join_cons. reflexivity.
Qed.

(** On success the text outside the target line is kept character for
    character: the code returned is the text read with the target line
    replaced by the stored line. *)
Theorem apply_patch_keeps_surrounding_text
    (fs fs' : gmap string entry) (path raw : string) (line_no : Z)
    (new_line code : string) :
  fs !! path = Some (File raw) ->
  ApplyPatchTool_call fs path line_no new_line = (inr code, fs') ->
  let lines := readlines (universal_newlines raw) in
  let i := Z.to_nat (line_no - 1) in
  exists original_line,
    lines !! i = Some original_line
    /\ universal_newlines raw
       = join (take i lines) ++ original_line ++ join (drop (S i) lines)
    /\ code = join (take i lines) ++ indent_new_line original_line new_line
              ++ join (drop (S i) lines).
Proof.
  intros Hfile Hcall lines i.
  destruct (apply_patch_success_code fs fs' path raw line_no new_line code
              Hfile Hcall) as (original_line & Hline & ->).
  fold lines i in Hline |- *. exists original_line.
  destruct (join_insert lines i original_line
              (indent_new_line original_line new_line) Hline) as [Hold Hnew].
  split; [exact Hline|]. split; [|exact Hnew].
  rewrite <- Hold. unfold lines. symmetry. apply join_readlines.
Qed.

Lemma apply_patch_keeps_surrounding_text_witness :
  exists original_line,
    readlines (universal_newlines Demo.prog_text) !! 1%nat = Some original_line
    /\ universal_newlines Demo.prog_text
       = ("def f(x):" ++ nl) ++ original_line ++ ("y = f(2)" ++ nl)
    /\ "def f(x):" ++ nl ++ "    return x + 1" ++ nl ++ "y = f(2)" ++ nl
       = ("def f(x):" ++ nl) ++ indent_new_line original_line "return x + 1"
         ++ ("y = f(2)" ++ nl).
Proof.
  exact (apply_patch_keeps_surrounding_text Demo.fs _ "prog.py" Demo.prog_text 2
           "return x + 1" _ eq_refl eq_refl).
Defined.

(** *** Reading back what was written *)

Lemma cr_free_universal_newlines_upto (n : nat) :
  forall s, (String.length s <= n)%nat -> Facts.cr_free (universal_newlines s) = true.
Proof.
  induction n as [|n IH]; intros s Hlen.
  - destruct s; [reflexivity|simpl in Hlen; lia].
  - destruct s as [|c s]; [reflexivity|]. simpl in Hlen.
    cbn [universal_newlines].
    destruct (Ascii.eqb_spec c cr_char) as [->|Hc].
    + destruct s as [|c2 s2].
      * reflexivity.
      * destruct (Ascii.eqb c2 nl_char).
        -- cbn [Facts.cr_free]. rewrite IH by (simpl in Hlen; lia). reflexivity.
        -- cbn [Facts.cr_free]. rewrite IH by lia. reflexivity.
    + cbn [Facts.cr_free]. rewrite IH by lia.
      destruct (Ascii.eqb_spec c cr_char); [contradiction|reflexivity].
Qed.

Lemma cr_free_universal_newlines (s : string) :
  Facts.cr_free (universal_newlines s) = true.
Proof. apply (cr_free_universal_newlines_upto (String.length s)). lia. Qed.

Lemma universal_newlines_cr_free (s : string) :
  Facts.cr_free s = true -> universal_newlines s = s.
Proof.
  induction s as [|c s IH]; [reflexivity|]. cbn [Facts.cr_free universal_newlines].
  intros H. apply andb_true_iff in H as [Hc Hs].
  destruct (Ascii.eqb c cr_char); [discriminate|]. rewrite IH by exact Hs.
  reflexivity.
Qed.

Lemma cr_free_app (a b : string) :
  Facts.cr_free (a ++ b) = Facts.cr_free a && Facts.cr_free b.
Proof.
  induction a as [|c a IH]; [reflexivity|]. simpl. rewrite IH.
  rewrite andb_assoc. reflexivity.
Qed.

Lemma cr_free_join (l : list string) :
  Forall (fun x => Facts.cr_free x = true) l -> Facts.cr_free (join l) = true.
Proof.
  induction 1 as [|x l Hx _ IH]; [reflexivity|].
  rewrite join_cons, cr_free_app, Hx, IH. reflexivity.
Qed.

Lemma cr_free_readlines (s : string) :
  Facts.cr_free s = true -> Forall (fun x => Facts.cr_free x = true) (readlines s).
Proof.
  induction s as [|c s IH]; [constructor|]. cbn [Facts.cr_free readlines].
  intros H. apply andb_true_iff in H as [Hc Hs]. specialize (IH Hs).
  destruct (Ascii.eqb c nl_char).
  - constructor; [reflexivity|exact IH].
  - destruct (readlines s) as [|h t].
    + constructor; [|constructor]. cbn [Facts.cr_free]. rewrite Hc. reflexivity.
    + inversion IH as [|? ? Hh Ht]; subst. constructor; [|exact Ht].
      cbn [Facts.cr_free]. rewrite Hc, Hh. reflexivity.
Qed.

Lemma cr_free_lstrip (s : string) :
  Facts.cr_free s = true -> Facts.cr_free (lstrip s) = true.
Proof.
  induction s as [|c s IH]; [reflexivity|]. cbn [lstrip]. intros H.
  destruct (isspace c); [|exact H].
  cbn [Facts.cr_free] in H. apply andb_true_iff in H as [_ Hs]. auto.
Qed.

Lemma cr_free_rstrip (s : string) :
  Facts.cr_free s = true -> Facts.cr_free (rstrip s) = true.
Proof.
  induction s as [|c s IH]; [reflexivity|]. cbn [Facts.cr_free]. intros H.
  apply andb_true_iff in H as [Hc Hs]. specialize (IH Hs).
  destruct (rstrip_cons c s) as [E|(E & _)]; rewrite E; [|reflexivity].
  cbn [Facts.cr_free]. rewrite Hc, IH. reflexivity.
Qed.

Lemma cr_free_spaces (n : nat) : Facts.cr_free (spaces n) = true.
Proof. induction n as [|n IH]; [reflexivity|]. cbn [spaces Facts.cr_free]. rewrite IH. reflexivity. Qed.

Lemma cr_free_indent_new_line (original_line new_line : string) :
  Facts.cr_free new_line = true ->
  Facts.cr_free (indent_new_line original_line new_line) = true.
Proof.
  intros H. unfold indent_new_line.
  set (chosen := if negb (strip new_line =? "")%string
                    && negb (startswith new_line
                               (spaces (original_indent_of original_line)))
                 then spaces (original_indent_of original_line) ++ strip new_line
                 else new_line).
  assert (Hchosen : Facts.cr_free chosen = true).
  { unfold chosen.
    destruct (negb (strip new_line =? "")%string
              && negb (startswith new_line
                         (spaces (original_indent_of original_line)))); [|exact H].
    rewrite cr_free_app, cr_free_spaces. unfold strip.
    rewrite cr_free_rstrip by (apply cr_free_lstrip, H). reflexivity. }
  destruct (negb (endswith chosen nl)); [|exact Hchosen].
  rewrite cr_free_app, Hchosen. reflexivity.
Qed.

(** Loading the file after a successful patch gives the code the tool
    returned, when the candidate holds no carriage return: the session's
    current code and the file agree. *)
Theorem load_after_apply_returns_patched_code
    (fs fs' : gmap string entry) (path : string) (line_no : Z)
    (new_line code : string) :
  ApplyPatchTool_call fs path line_no new_line = (inr code, fs') ->
  Facts.cr_free new_line = true ->
  LoadCodeTool_call fs' path = inr code.
Proof.
  intros Hcall Hcr.
  pose proof (apply_patch_call_cases fs path line_no new_line) as Hw.
  rewrite Hcall in Hw. cbn [fst snd] in Hw. destruct Hw as (_ & -> & raw & Hfile).
  destruct (apply_patch_success_code fs _ path raw line_no new_line code
              Hfile Hcall) as (original_line & Hline & Hcode).
  rewrite (proj2 (join_insert _ _ original_line
                    (indent_new_line original_line new_line) Hline)) in Hcode.
  unfold LoadCodeTool_call. rewrite lookup_insert_eq. f_equal.
  apply universal_newlines_cr_free.
  pose proof (cr_free_readlines _ (cr_free_universal_newlines raw)) as Hall.
  rewrite Hcode, !cr_free_app.
  rewrite (cr_free_indent_new_line original_line new_line Hcr).
  rewrite !cr_free_join; [reflexivity| |].
  - apply Forall_drop, Hall.
  - apply Forall_take, Hall.
Qed.

Lemma load_after_apply_returns_patched_code_witness :
  LoadCodeTool_call
    (<["prog.py" := File ("def f(x):" ++ nl ++ "    return x + 1" ++ nl
                          ++ "y = f(2)" ++ nl)]> Demo.fs) "prog.py"
  = inr ("def f(x):" ++ nl ++ "    return x + 1" ++ nl ++ "y = f(2)" ++ nl).
Proof.
  exact (load_after_apply_returns_patched_code Demo.fs _ "prog.py" 2
           "return x + 1" _ eq_refl eq_refl).
Defined.

Lemma endswith_app_same (a p : string) : endswith (a ++ p) p = true.
Proof.
  induction a as [|c a IH]; simpl.
  - destruct p as [|x p]; [reflexivity|]. cbn [endswith].
    rewrite String.eqb_refl. reflexivity.
  - cbn [endswith]. rewrite IH. apply orb_true_r.
Qed.

(** Whatever the candidate, the line the tool stores ends with a line
    terminator and so is never empty. *)
Theorem stored_line_ends_with_newline (original_line new_line : string) :
  endswith (indent_new_line original_line new_line) nl = true
  /\ indent_new_line original_line new_line <> "".
Proof.
  assert (Hend : forall x,
             endswith (if negb (endswith x nl) then x ++ nl else x) nl = true).
  { intros x. destruct (endswith x nl) eqn:E; cbn [negb];
      [exact E|apply endswith_app_same]. }
  assert (H : endswith (indent_new_line original_line new_line) nl = true).
  { unfold indent_new_line. apply Hend. }
  split; [exact H|]. intros E. rewrite E in H. discriminate.
Qed.

(** ** The test oracle: what the tool can return *)

(** The text the tool returns is never blank, and a harness that timed out
    or could not be started is always reported as a failing run. *)
Theorem run_tests_result_never_blank (r : proc_result) :
  strip (RunTestsTool_call r) <> ""
  /\ match r with
     | Completed _ _ => True
     | TimeoutExpired | RunFailed _ => output_passes (RunTestsTool_call r) = false
     end.
Proof.
  destruct r as [stdout stderr| |m]; cbn [RunTestsTool_call].
  - split; [|exact I].
    destruct (String.eqb_spec (strip (stdout ++ stderr)) "") as [E|N];
      [discriminate|exact N].
  - split; [discriminate|reflexivity].
  - split.
    + unfold strip. simpl.
      destruct (rstrip_head "E"%char
                  ("RROR: Failed to run tests - " ++ m) eq_refl) as [t Ht].
      simpl in Ht. rewrite Ht. discriminate.
    + unfold output_passes. simpl. first [reflexivity|apply andb_false_r].
Qed.

(** ** The code analysis tool: the enclosing function *)

Lemma find_def_out_of_range (lines : list string) (k : nat) :
  (length lines < k)%nat ->
  find_def lines k = inl (IndexError "list index out of range").
Proof.
  intros Hk. destruct k as [|i]; [lia|]. cbn [find_def].
  rewrite lookup_ge_None_2 by lia. reflexivity.
Qed.

(** The analysis raises exactly when the line number lies beyond the last
    line; a line number of zero or below is accepted. *)
Theorem get_function_context_raises_beyond_last_line (code : string) (line_no : Z) :
  (Z.of_nat (length (splitlines code)) < line_no ->
   get_function_context code line_no = inl (IndexError "list index out of range"))
  /\ (line_no <= Z.of_nat (length (splitlines code)) ->
      exists fc, get_function_context code line_no = inr fc
                 /\ error_line fc = line_no).
Proof.
  unfold get_function_context. split; intros H.
  - rewrite find_def_out_of_range by lia. reflexivity.
  - destruct (find_def_in_range (splitlines code) (Z.to_nat line_no) ltac:(lia))
      as [found ->].
    eexists. split; reflexivity.
Qed.

Lemma get_function_context_raises_beyond_last_line_witness :
  get_function_context Demo.prog_text 4 = inl (IndexError "list index out of range").
Proof.
  refine (proj1 (get_function_context_raises_beyond_last_line Demo.prog_text 4) _).
  vm_compute. reflexivity.
Defined.

Lemma find_def_nearest (lines : list string) (k : nat) (found : option (Z * string)) :
  find_def lines k = inr found ->
  match found with
  | Some (j, name) =>
      1 <= j <= Z.of_nat k
      /\ (exists l, lines !! Z.to_nat (j - 1) = Some l
                    /\ startswith (strip l) "def " = true
                    /\ name = def_name (strip l))
      /\ forall i l, (Z.to_nat j <= i < k)%nat -> lines !! i = Some l ->
                     startswith (strip l) "def " = false
  | None =>
      forall i l, (i < k)%nat -> lines !! i = Some l ->
                  startswith (strip l) "def " = false
  end.
Proof.
  induction k as [|i IH]; cbn [find_def].
  - intros [= <-]. intros i l Hi. lia.
  - destruct (lines !! i) as [l|] eqn:Hl; [|discriminate].
    destruct (startswith (strip l) "def ") eqn:Hdef.
    + intros [= <-]. split; [lia|]. split.
      * exists l. replace (Z.to_nat (Z.of_nat i + 1 - 1)) with i by lia. auto.
      * intros i' l' Hi'. lia.
    + intros Hrest. specialize (IH Hrest). destruct found as [[j name]|].
      * destruct IH as (Hj & Hline & Hafter). split; [lia|]. split; [exact Hline|].
        intros i' l' Hi' Hl'. destruct (Nat.eq_dec i' i) as [->|Hne].
        -- congruence.
        -- apply (Hafter i' l'); [lia|exact Hl'].
      * intros i' l' Hi' Hl'. destruct (Nat.eq_dec i' i) as [->|Hne].
        -- congruence.
        -- apply (IH i' l'); [lia|exact Hl'].
Qed.

(** The function reported is the nearest one at or above the line: its
    header is the closest line, going up from [line_no], whose trimmed text
    starts with "def "; when no such line exists no function is
    reported. *)
Theorem get_function_context_finds_nearest_def
    (code : string) (line_no : Z) (fc : FunctionContext) :
  get_function_context code line_no = inr fc ->
  let lines := splitlines code in
  match function_start_line fc with
  | Some j =>
      1 <= j <= line_no
      /\ (exists l, lines !! Z.to_nat (j - 1) = Some l
                    /\ startswith (strip l) "def " = true
                    /\ function_name fc = Some (def_name (strip l)))
      /\ forall n l, j < n <= line_no -> lines !! Z.to_nat (n - 1) = Some l ->
                     startswith (strip l) "def " = false
  | None =>
      function_name fc = None
      /\ forall n l, 1 <= n <= line_no -> lines !! Z.to_nat (n - 1) = Some l ->
                     startswith (strip l) "def " = false
  end.
Proof.
  intros Hfc lines. unfold get_function_context in Hfc. fold lines in Hfc.
  destruct (find_def lines (Z.to_nat line_no)) as [e|found] eqn:Hfind;
    [discriminate|].
  injection Hfc as <-. cbn [function_start_line function_name].
  pose proof (find_def_nearest lines (Z.to_nat line_no) found Hfind) as Hnear.
  destruct found as [[j name]|]; cbn.
  - destruct Hnear as (Hj & (l & Hl & Hdef & ->) & Hafter).
    split; [lia|]. split; [eauto|].
    intros n l' Hn Hl'. apply (Hafter (Z.to_nat (n - 1)) l'); [lia|exact Hl'].
  - split; [reflexivity|].
    intros n l' Hn Hl'. apply (Hnear (Z.to_nat (n - 1)) l'); [lia|exact Hl'].
Qed.

Lemma get_function_context_finds_nearest_def_witness :
  1 <= 1 <= 2
  /\ (exists l, splitlines Demo.prog_text !! Z.to_nat (1 - 1) = Some l
                /\ startswith (strip l) "def " = true
                /\ Some "f" = Some (def_name (strip l)))
  /\ forall n l, 1 < n <= 2 ->
                 splitlines Demo.prog_text !! Z.to_nat (n - 1) = Some l ->
                 startswith (strip l) "def " = false.
Proof.
  exact (get_function_context_finds_nearest_def Demo.prog_text 2
           (mkFunctionContext (Some "f") (Some 1) 2
              ["def f(x):"; "    return x - 1"; "y = f(2)"] 1)
           eq_refl).
Defined.

(** For a line inside the file the window holds at most ten lines and the
    target line is one of them, at the offset the reported starting line
    gives. *)
Theorem function_context_window_holds_target (code : string) (line_no : Z) :
  1 <= line_no <= Z.of_nat (length (splitlines code)) ->
  exists fc,
    get_function_context code line_no = inr fc
    /\ (length (context_lines fc) <= 10)%nat
    /\ 1 <= context_start_line fc <= line_no
    /\ context_lines fc !! Z.to_nat (line_no - context_start_line fc)
       = splitlines code !! Z.to_nat (line_no - 1)
    /\ is_Some (splitlines code !! Z.to_nat (line_no - 1)).
Proof.
  intros Hin.
  destruct (get_function_context_window code line_no Hin)
    as (fc & Hfc & _ & Hstart & Hlines).
  exists fc. split; [exact Hfc|]. rewrite Hlines, Hstart.
  split; [rewrite length_take; lia|]. split; [lia|]. split.
  - rewrite lookup_take_lt by lia. rewrite lookup_drop. f_equal. lia.
  - apply lookup_lt_is_Some_2. lia.
Qed.

Lemma function_context_window_holds_target_witness :
  exists fc,
    get_function_context Demo.code20 10 = inr fc
    /\ context_lines fc !! Z.to_nat (10 - context_start_line fc) = Some "l10".
Proof.
  destruct (function_context_window_holds_target Demo.code20 10)
    as (fc & Hfc & _ & _ & Hat & _).
  - vm_compute. split; discriminate.
  - exists fc. split; [exact Hfc|]. rewrite Hat. reflexivity.
Defined.

(** ** The rendered code window of the prompt *)

Lemma startswith_refl_app (x y : string) : startswith (x ++ y) x = true.
Proof.
  induction x as [|c x IH]; simpl; [destruct y; reflexivity|].
  cbn [startswith]. rewrite Ascii.eqb_refl. exact IH.
Qed.

Lemma contains_prefix (x y : string) : contains x (x ++ y) = true.
Proof. rewrite contains_unfold, startswith_refl_app. reflexivity. Qed.

Lemma contains_app_r (x a b : string) :
  contains x b = true -> contains x (a ++ b) = true.
Proof.
  intros H. induction a as [|c a IH]; simpl; [exact H|].
  cbn [contains]. rewrite IH. apply orb_true_r.
Qed.

Lemma contains_concat (sep x : string) (l : list string) :
  In x l -> contains x (String.concat sep l) = true.
Proof.
  induction l as [|y l IH]; [intros []|]. intros Hin.
  destruct l as [|z l].
  - destruct Hin as [->|[]]. cbn [String.concat].
    rewrite <- (append_nil_r x) at 2. apply contains_prefix.
  - change (String.concat sep (y :: z :: l))
      with (y ++ sep ++ String.concat sep (z :: l)).
    destruct Hin as [->|Hin]; [apply contains_prefix|].
    apply contains_app_r, contains_app_r, IH, Hin.
Qed.

(** The window rendered for the prompt always shows the target line, with
    its number and the marker, when the line lies inside the code. *)
Theorem code_context_marks_target_line
    (code : string) (line_no radius : Z) (line : string) :
  0 <= radius -> 1 <= line_no ->
  splitlines code !! Z.to_nat (line_no - 1) = Some line ->
  contains (">>> " ++ fmt_3d line_no ++ ": " ++ line)
    (get_code_context code line_no radius) = true.
Proof.
  intros Hr Hlo Hline. pose proof (lookup_lt_Some _ _ _ Hline) as Hlt.
  unfold get_code_context. apply contains_concat, list_elem_of_In.
  apply (list_elem_of_fmap_2' _ _ (line_no - 1)).
  - apply elem_of_seqZ. lia.
  - replace (line_no - 1 + 1) with line_no by lia.
    rewrite Z.eqb_refl, Hline. reflexivity.
Qed.

Lemma code_context_marks_target_line_witness :
  contains (">>> " ++ fmt_3d 2 ++ ": " ++ "    return x - 1")
    (get_code_context Demo.prog_text 2 3) = true.
Proof.
  refine (code_context_marks_target_line Demo.prog_text 2 3 "    return x - 1" _ _ _).
  - lia.
  - lia.
  - reflexivity.
Defined.

(** ** The prompt: the tail of the test output *)

Lemma substring_length_le (n m : nat) (s : string) :
  (String.length (String.substring n m s) <= m)%nat.
Proof.
  revert n m. induction s as [|c s IH]; intros n m.
  - destruct n, m; simpl; lia.
  - destruct n as [|n]; cbn [String.substring].
    + destruct m as [|m]; simpl; [lia|]. specialize (IH 0%nat m). lia.
    + apply IH.
Qed.

Lemma substring_all (s : string) : String.substring 0 (String.length s) s = s.
Proof. induction s as [|c s IH]; simpl; [reflexivity|]. rewrite IH. reflexivity. Qed.

Lemma substring_is_suffix (s : string) (k : nat) :
  (k <= String.length s)%nat ->
  exists pre, s = pre ++ String.substring k (String.length s - k) s
              /\ String.length pre = k.
Proof.
  revert k. induction s as [|c s IH]; intros k Hk.
  - simpl in Hk. exists "". replace k with 0%nat by lia. auto.
  - destruct k as [|k].
    + exists "". split; [|reflexivity].
      rewrite Nat.sub_0_r, substring_all. reflexivity.
    + simpl in Hk. destruct (IH k ltac:(lia)) as (pre & Hs & Hlen).
      exists (String c pre). cbn [String.substring String.length Nat.sub].
      split; [simpl; rewrite <- Hs; reflexivity|simpl; lia].
Qed.

Lemma length_app (a b : string) :
  String.length (a ++ b) = (String.length a + String.length b)%nat.
Proof. induction a as [|c a IH]; simpl; [reflexivity|]. rewrite IH. reflexivity. Qed.

(** The prompt carries at most the last 500 characters of the test output,
    and they are its end: the whole output when it is no longer than 500
    characters, and otherwise exactly 500 characters, what stands ahead of
    them being dropped; the attempt it announces is the next one. *)
Theorem prompt_carries_bounded_output_tail (s : APRState) :
  (String.length (pi_test_output (prompt_input_of s)) <= 500)%nat
  /\ (exists pre, test_output s = pre ++ pi_test_output (prompt_input_of s))
  /\ ((String.length (test_output s) <= 500)%nat ->
      pi_test_output (prompt_input_of s) = test_output s)
  /\ ((500 < String.length (test_output s))%nat ->
      String.length (pi_test_output (prompt_input_of s)) = 500%nat
      /\ exists pre, test_output s = pre ++ pi_test_output (prompt_input_of s)
                     /\ String.length pre
                        = (String.length (test_output s) - 500)%nat)
  /\ pi_attempt_num (prompt_input_of s) = attempts s + 1
  /\ pi_error_line (prompt_input_of s) = error_line_no s.
Proof.
  unfold prompt_input_of. cbn [pi_test_output pi_attempt_num pi_error_line].
  unfold last_chars.
  destruct (Nat.leb_spec (String.length (test_output s)) 500) as [Hle|Hgt].
  - repeat apply conj; [exact Hle|exists ""; reflexivity|reflexivity|lia
                       |reflexivity..].
  - destruct (substring_is_suffix (test_output s)
                (String.length (test_output s) - 500) ltac:(lia))
      as (pre & Hs & Hpre).
    replace (String.length (test_output s) - (String.length (test_output s) - 500))%nat
      with 500%nat in Hs by lia.
    repeat apply conj; [apply substring_length_le|exists pre; exact Hs|lia|
                        |reflexivity..].
    intros _. split; [|exists pre; split; [exact Hs|exact Hpre]].
    pose proof (f_equal String.length Hs) as Hlen.
    rewrite length_app, Hpre in Hlen. lia.
Qed.

(** ** Line extraction: the range of the result *)

Lemma isdigit_val (c : ascii) : isdigit c = true -> 0 <= digit_val c <= 9.
Proof.
  unfold isdigit, digit_val. intros H. apply andb_true_iff in H as [H1 H2].
  apply N.leb_le in H1, H2. lia.
Qed.

Lemma int_of_digits_from_nonneg (s : string) (acc : Z) :
  Facts.all_digits s = true -> 0 <= acc -> 0 <= int_of_digits_from acc s.
Proof.
  revert acc. induction s as [|c s IH]; intros acc Hd Hacc; [exact Hacc|].
  cbn [Facts.all_digits] in Hd. apply andb_true_iff in Hd as [Hc Hs].
  cbn [int_of_digits_from]. apply IH; [exact Hs|].
  pose proof (isdigit_val c Hc). lia.
Qed.

Lemma group_then_digits ic k s cap :
  group_then ic Digit k s = Some cap -> Facts.all_digits cap = true /\ cap <> "".
Proof.
  revert cap. induction s as [|c s IH]; intros cap; cbn [group_then]; [discriminate|].
  cbn [atom_match]. destruct (isdigit c) eqn:Hc; [|discriminate].
  destruct (group_then ic Digit k s) as [cap'|].
  - intros [= <-]. destruct (IH cap' eq_refl) as [Hd _].
    cbn [Facts.all_digits]. rewrite Hc, Hd. split; [reflexivity|discriminate].
  - destruct (k s); [|discriminate]. intros [= <-].
    cbn [Facts.all_digits]. rewrite Hc. split; [reflexivity|discriminate].
Qed.

Lemma generic_match_shape (t cap : string) :
  match_here true (lit "line " ++ digits_group)%list t = Some cap ->
  Facts.all_digits cap = true /\ startswith (lower t) "line " = true.
Proof.
  unfold digits_group. cbn [lit app match_here atom_match].
  change (lower_char "l") with "l"%char. change (lower_char "i") with "i"%char.
  change (lower_char "n") with "n"%char. change (lower_char "e") with "e"%char.
  change (lower_char " ") with " "%char.
  destruct t as [|c1 t]; [discriminate|].
  destruct (Ascii.eqb "l" (lower_char c1)) eqn:E1; [|discriminate].
  destruct t as [|c2 t]; [discriminate|].
  destruct (Ascii.eqb "i" (lower_char c2)) eqn:E2; [|discriminate].
  destruct t as [|c3 t]; [discriminate|].
  destruct (Ascii.eqb "n" (lower_char c3)) eqn:E3; [|discriminate].
  destruct t as [|c4 t]; [discriminate|].
  destruct (Ascii.eqb "e" (lower_char c4)) eqn:E4; [|discriminate].
  destruct t as [|c5 t]; [discriminate|].
  destruct (Ascii.eqb " " (lower_char c5)) eqn:E5; [|discriminate].
  intros H. split; [exact (proj1 (group_then_digits _ _ _ _ H))|].
  cbn [lower startswith]. rewrite E1, E2, E3, E4, E5.
  destruct (lower t); reflexivity.
Qed.

Lemma lower_app (a b : string) : lower (a ++ b) = lower a ++ lower b.
Proof. induction a as [|c a IH]; simpl; [reflexivity|]. rewrite IH. reflexivity. Qed.

(** The line number extracted is never negative, and it is 1 whenever the
    text does not hold the word "line" followed by a blank, in any letter
    case. *)
Theorem extracted_line_number_range (test_output : string) :
  0 <= extract_error_line_number test_output
  /\ (Spec.contains_ci "line " test_output = false ->
      extract_error_line_number test_output = 1).
Proof.
  destruct (search true (lit "line " ++ digits_group)%list test_output)
    as [cap|] eqn:Hs.
  2: { unfold extract_error_line_number.
       rewrite (generic_miss_is_total_miss test_output Hs).
       split; [lia|reflexivity]. }
  replace (extract_error_line_number test_output) with (int_of_digits cap)
    by (unfold extract_error_line_number, patterns; cbn [first_match];
        rewrite Hs; reflexivity).
  destruct (search_inv _ _ _ _ Hs) as (pre & t & -> & Ht).
  destruct (generic_match_shape t cap Ht) as [Hd Hline].
  split.
  - apply int_of_digits_from_nonneg; [exact Hd|lia].
  - unfold Spec.contains_ci. change (lower "line ") with "line ".
    rewrite lower_app, contains_app_r; [discriminate|].
    rewrite contains_unfold, Hline. reflexivity.
Qed.

Lemma extracted_line_number_range_witness :
  extract_error_line_number "AssertionError in test 3" = 1.
Proof.
  exact (proj2 (extracted_line_number_range "AssertionError in test 3") eq_refl).
Defined.

(** ** Both keyword scans ignore letter case *)

Lemma lower_lower_char (a : ascii) : lower_char (lower_char a) = lower_char a.
Proof. destruct a as [[] [] [] [] [] [] [] []]; reflexivity. Qed.

Lemma upper_upper_char (a : ascii) : upper_char (upper_char a) = upper_char a.
Proof. destruct a as [[] [] [] [] [] [] [] []]; reflexivity. Qed.

Lemma lower_upper (s : string) : lower (upper s) = lower s.
Proof.
  induction s as [|c s IH]; [reflexivity|]. cbn [lower upper].
  rewrite lower_upper_char, IH. reflexivity.
Qed.

Lemma lower_lower (s : string) : lower (lower s) = lower s.
Proof.
  induction s as [|c s IH]; [reflexivity|]. cbn [lower].
  rewrite lower_lower_char, IH. reflexivity.
Qed.

Lemma upper_lower (s : string) : upper (lower s) = upper s.
Proof.
  induction s as [|c s IH]; [reflexivity|]. cbn [lower upper].
  rewrite upper_lower_char, IH. reflexivity.
Qed.

Lemma upper_upper (s : string) : upper (upper s) = upper s.
Proof.
  induction s as [|c s IH]; [reflexivity|]. cbn [upper].
  rewrite upper_upper_char, IH. reflexivity.
Qed.

Lemma is_ascii_upper (s : string) :
  Facts.is_ascii s = true -> Facts.is_ascii (upper s) = true.
Proof.
  induction s as [|c s IH]; [reflexivity|]. cbn [Facts.is_ascii upper].
  intros [Hc Hs]%andb_true_iff. rewrite (IH Hs), andb_true_r.
  revert Hc. destruct c as [[] [] [] [] [] [] [] []]; vm_compute; auto.
Qed.

Lemma is_ascii_lower (s : string) :
  Facts.is_ascii s = true -> Facts.is_ascii (lower s) = true.
Proof.
  induction s as [|c s IH]; [reflexivity|]. cbn [Facts.is_ascii lower].
  intros [Hc Hs]%andb_true_iff. rewrite (IH Hs), andb_true_r.
  revert Hc. destruct c as [[] [] [] [] [] [] [] []]; vm_compute; auto.
Qed.

(** On ASCII test output, changing the letter case changes neither the error
    category nor the pass/fail verdict, and the text stays ASCII. *)
Theorem ascii_keyword_scans_ignore_case (test_output : string) :
  Facts.is_ascii test_output = true ->
  identify_error_type (upper test_output) = identify_error_type test_output
  /\ identify_error_type (lower test_output) = identify_error_type test_output
  /\ output_passes (upper test_output) = output_passes test_output
  /\ output_passes (lower test_output) = output_passes test_output
  /\ Facts.is_ascii (upper test_output) = true
  /\ Facts.is_ascii (lower test_output) = true.
Proof.
  intros Hascii. unfold identify_error_type, output_passes.
  rewrite lower_upper, lower_lower, upper_upper, upper_lower.
  repeat apply conj; auto using is_ascii_upper, is_ascii_lower.
Qed.

Lemma ascii_keyword_scans_ignore_case_witness :
  identify_error_type "INDEXERROR: LIST INDEX OUT OF RANGE"
  = identify_error_type "IndexError: list index out of range"
  /\ output_passes "ran 3 tests: 1 failed" = output_passes "RAN 3 TESTS: 1 FAILED".
Proof.
  split.
  - exact (proj1 (ascii_keyword_scans_ignore_case
                    "IndexError: list index out of range" eq_refl)).
  - exact (proj1 (proj2 (proj2 (proj2 (ascii_keyword_scans_ignore_case
                                         "RAN 3 TESTS: 1 FAILED" eq_refl))))).
Defined.

(** ** The cleaned reply is blank only when the reply is *)

Lemma lstrip_idem (s : string) : lstrip (lstrip s) = lstrip s.
Proof.
  induction s as [|c s IH]; [reflexivity|]. cbn [lstrip].
  destruct (isspace c) eqn:Hc; [exact IH|]. cbn [lstrip]. rewrite Hc. reflexivity.
Qed.

Lemma rstrip_idem (s : string) : rstrip (rstrip s) = rstrip s.
Proof.
  induction s as [|c s IH]; [reflexivity|]. cbn [rstrip].
  destruct (rstrip s) as [|b r] eqn:E.
  - destruct (isspace c) eqn:Hc; [reflexivity|]. cbn [rstrip]. rewrite Hc.
    reflexivity.
  - change (rstrip (String c (String b r)))
      with (match rstrip (String b r) with
            | "" => if isspace c then "" else String c ""
            | r0 => String c r0
            end).
    rewrite IH. reflexivity.
Qed.

Lemma strip_idem (s : string) : strip (strip s) = strip s.
Proof.
  unfold strip. set (t := lstrip s).
  assert (Hfix : lstrip t = t) by apply lstrip_idem.
  assert (Hl : lstrip (rstrip t) = rstrip t).
  { destruct t as [|c t'] eqn:Et; [reflexivity|].
    destruct (lstrip_fixed_head (String c t') Hfix ltac:(discriminate))
      as (c' & t'' & [= <- <-] & Hc).
    destruct (rstrip_head c t' Hc) as [r ->]. cbn [lstrip]. rewrite Hc.
    reflexivity. }
  rewrite Hl. apply rstrip_idem.
Qed.

(** A reply that is not blank never yields a blank patch line, and a blank
    reply yields the empty one. *)
Theorem sanitized_reply_blank_only_if_reply_blank (content : string) :
  (strip content <> "" -> strip (sanitize_response content) <> "")
  /\ (strip content = "" -> sanitize_response content = "").
Proof.
  unfold sanitize_response. split.
  - intros Hne. destruct (contains fence (strip content)).
    + destruct (List.find usable_line (split_char nl_char (strip content)))
        as [line|] eqn:Hfind.
      * apply List.find_some in Hfind as [_ Hu]. unfold usable_line in Hu.
        apply andb_true_iff in Hu as [Hu _]. apply negb_true_iff in Hu.
        intros E. rewrite E in Hu. discriminate.
      * rewrite strip_idem. exact Hne.
    + rewrite strip_idem. exact Hne.
  - intros ->. reflexivity.
Qed.

Lemma sanitized_reply_blank_only_if_reply_blank_witness :
  strip (sanitize_response (fence ++ nl ++ "x = 1" ++ nl ++ fence)) <> "".
Proof.
  refine (proj1 (sanitized_reply_blank_only_if_reply_blank
                   (fence ++ nl ++ "x = 1" ++ nl ++ fence)) _).
  discriminate.
Defined.

(** ** The graph: what every run keeps *)

Section Runs.
Variable env : Env.

Lemma invariant_reachable (P : config -> Prop) :
  (forall c c', step env c = Some c' -> P c -> P c') ->
  forall c0 c, P c0 -> reachable env c0 c -> P c.
Proof.
  intros Hstep c0 c H0 Hreach.
  induction Hreach as [|x y z Hxy _ IH]; [exact H0|].
  apply IH. exact (Hstep x y Hxy H0).
Qed.

Ltac route_cases :=
  unfold should_continue_repair;
  repeat match goal with
         | |- context [if ?b then _ else _] => destruct b eqn:?
         end.

(** One super-step: the fields no node writes, and the message no later
    node clears. *)
Lemma step_frame n w s :
  match step env (n, w, s) with
  | Some (n', w', s') =>
      n' <> load_code
      /\ (n <> load_code -> n' <> localize_defect)
      /\ file_path s' = file_path s
      /\ max_attempts s' = max_attempts s
      /\ (n <> load_code -> original_code s' = original_code s)
      /\ (n <> load_code -> n <> localize_defect ->
          error_line_no s' = error_line_no s
          /\ function_context s' = function_context s)
      /\ (n <> load_code -> error_message s <> "" -> error_message s' <> "")
  | None => n = END
  end.
Proof.
  destruct n; cbn [step]; try reflexivity; node_cases; cbn;
    repeat apply conj; try discriminate; try reflexivity; try congruence;
    try (intros; assumption); try (intros; discriminate);
    try (intros; split; reflexivity);
    try (route_cases; discriminate).
Qed.

Lemma exec_succ n c :
  exec (S n) env c =
    match step env (exec n env c) with
    | Some c' => c'
    | None => exec n env c
    end.
Proof.
  replace (S n) with (n + 1)%nat by lia. rewrite exec_add. cbn [exec].
  destruct (step env (exec n env c)); reflexivity.
Qed.

Lemma step_frame_config c :
  match step env c with
  | Some c' =>
      node_of c' <> load_code
      /\ (node_of c <> load_code -> node_of c' <> localize_defect)
      /\ file_path (state_of c') = file_path (state_of c)
      /\ max_attempts (state_of c') = max_attempts (state_of c)
      /\ (node_of c <> load_code ->
          original_code (state_of c') = original_code (state_of c))
      /\ (node_of c <> load_code -> node_of c <> localize_defect ->
          error_line_no (state_of c') = error_line_no (state_of c)
          /\ function_context (state_of c') = function_context (state_of c))
      /\ (node_of c <> load_code -> error_message (state_of c) <> "" ->
          error_message (state_of c') <> "")
  | None => node_of c = END
  end.
Proof.
  destruct c as [[n w] s]. pose proof (step_frame n w s) as H.
  destruct (step env (n, w, s)) as [[[n' w'] s']|]; exact H.
Qed.

Lemma node_after_steps w s n :
  (1 <= n)%nat ->
  node_of (exec n env (start w s)) <> load_code
  /\ ((2 <= n)%nat -> node_of (exec n env (start w s)) <> localize_defect).
Proof.
  induction n as [|n IH]; [lia|]. intros _. rewrite exec_succ.
  pose proof (step_frame_config (exec n env (start w s))) as H.
  destruct (step env (exec n env (start w s))) as [c'|] eqn:E.
  - destruct H as (H1 & H2 & _). split; [exact H1|].
    intros Hn. apply H2. apply IH. lia.
  - rewrite H. split; discriminate.
Qed.

(** The path and the budget of a session never change, and the snapshot
    taken by Load stays what Load made it: the text of the file when the load
    went through. *)
Theorem session_constants (w : World) (s : APRState) (n : nat) :
  let c := exec n env (start w s) in
  file_path (state_of c) = file_path s
  /\ max_attempts (state_of c) = max_attempts s
  /\ ((1 <= n)%nat ->
      original_code (state_of c)
      = original_code (state_of (exec 1 env (start w s))))
  /\ (forall text,
        init_error env = None ->
        LoadCodeTool_call (files w) (file_path s) = inr text ->
        (1 <= n)%nat -> original_code (state_of c) = text).
Proof.
  cbn zeta.
  assert (Hconst : file_path (state_of (exec n env (start w s))) = file_path s
                   /\ max_attempts (state_of (exec n env (start w s)))
                      = max_attempts s
                   /\ ((1 <= n)%nat ->
                       original_code (state_of (exec n env (start w s)))
                       = original_code (state_of (exec 1 env (start w s))))).
  { induction n as [|n IH]; [split; [reflexivity|split; [reflexivity|intros; lia]]|].
    destruct IH as (Hf & Hm & Ho). rewrite exec_succ.
    pose proof (step_frame_config (exec n env (start w s))) as H.
    destruct (step env (exec n env (start w s))) as [c'|] eqn:E.
    - destruct H as (_ & _ & Hf' & Hm' & Ho' & _).
      repeat split; [congruence|congruence|]. intros _.
      destruct n as [|n].
      + cbn [exec] in *. rewrite E. reflexivity.
      + rewrite Ho' by (apply node_after_steps; lia). apply Ho. lia.
    - repeat split; [exact Hf|exact Hm|]. intros _.
      destruct n as [|n]; [discriminate H|]. apply Ho. lia. }
  destruct Hconst as (Hf & Hm & Ho). repeat split; try assumption.
  intros text Hinit Hload Hn. rewrite Ho by exact Hn.
  unfold start. cbn [exec step]. unfold load_code_node, initialize_tools_and_llm.
  rewrite Hinit, Hload. reflexivity.
Qed.

(** The fault is localized once: from the end of Localize on, the line to
    patch and the function context stay the same through every retry. *)
Theorem fault_line_fixed_after_localize (w : World) (s : APRState) (n : nat) :
  (2 <= n)%nat ->
  error_line_no (state_of (exec n env (start w s)))
  = error_line_no (state_of (exec 2 env (start w s)))
  /\ function_context (state_of (exec n env (start w s)))
     = function_context (state_of (exec 2 env (start w s))).
Proof.
  induction n as [|n IH]; [lia|]. intros Hn.
  destruct (Nat.eq_dec n 1%nat) as [->|Hne]; [split; reflexivity|].
  specialize (IH ltac:(lia)). rewrite exec_succ.
  pose proof (step_frame_config (exec n env (start w s))) as H.
  destruct (step env (exec n env (start w s))) as [c'|] eqn:E; [|exact IH].
  destruct H as (_ & _ & _ & _ & _ & Hl & _).
  destruct (node_after_steps w s n ltac:(lia)) as [N1 N2].
  destruct (Hl N1 (N2 ltac:(lia))) as [-> ->]. exact IH.
Qed.

(** A system error is never cleared: once a stage after Load has set the
    error message, it is set in every later state of the run. *)
Theorem system_error_never_cleared (w : World) (s : APRState) (n m : nat) :
  (1 <= n <= m)%nat ->
  error_message (state_of (exec n env (start w s))) <> "" ->
  error_message (state_of (exec m env (start w s))) <> "".
Proof.
  intros [Hn Hnm] Herr. induction m as [|m IH]; [lia|].
  destruct (Nat.eq_dec n (S m)) as [<-|Hne]; [exact Herr|].
  specialize (IH ltac:(lia)). rewrite exec_succ.
  pose proof (step_frame_config (exec m env (start w s))) as H.
  destruct (step env (exec m env (start w s))) as [c'|] eqn:E; [|exact IH].
  destruct H as (_ & _ & _ & _ & _ & _ & Hs).
  apply Hs; [|exact IH]. apply node_after_steps. lia.
Qed.

End Runs.

(** ** The graph: the verdict *)

Section Verdict.
Variable env : Env.

Ltac verdict_close :=
  cbn; repeat apply conj; intros;
  try solve [ assumption | lia | discriminate | reflexivity | congruence
            | intuition (try lia; try congruence; try discriminate) ].

Lemma step_keeps_verdict_invariant a0 c c' :
  step env c = Some c' ->
  Facts.verdict_invariant a0 c -> Facts.verdict_invariant a0 c'.
Proof.
  destruct c as [[n w] s]. unfold Facts.verdict_invariant.
  cbn [node_of state_of fst snd]. intros Hstep [Ha Hn]. revert Hstep.
  destruct n; cbn [step]; [| | | | | | |discriminate].
  - node_cases; intros [= <-]; verdict_close.
  - node_cases; intros [= <-]; verdict_close.
  - node_cases; intros [= <-]; verdict_close.
  - node_cases; intros [= <-]; verdict_close.
  - node_cases; intros [= <-]; cbn [node_of state_of fst snd];
      unfold should_continue_repair; cbn.
    + verdict_close.
    + destruct (String.eqb_spec (error_message s) "") as [E|N]; cbn.
      * destruct (output_passes _) eqn:P; cbn.
        -- verdict_close.
        -- destruct (Z.leb_spec (max_attempts s) (attempts s)); verdict_close.
      * verdict_close.
  - node_cases; intros [= <-]; verdict_close.
  - unfold finish_failure_node. intros [= <-]. verdict_close.
Qed.

(** A run that has ended reports success only when no error message is set,
    the last test run passed and a patch was generated on the way; it reports
    failure only when an error message is set, or the last test run failed
    with the budget used up. *)
Theorem verdict_reflects_last_validation (w : World) (s : APRState) (c : config) :
  reachable env (start w s) c -> node_of c = END ->
  if success (state_of c)
  then error_message (state_of c) = ""
       /\ tests_passed (state_of c) = true
       /\ attempts s + 1 <= attempts (state_of c)
  else error_message (state_of c) <> ""
       \/ (tests_passed (state_of c) = false
           /\ max_attempts (state_of c) <= attempts (state_of c)).
Proof.
  intros Hreach HEND.
  assert (Hinv : Facts.verdict_invariant (attempts s) c).
  { apply (invariant_reachable env (Facts.verdict_invariant (attempts s))
             (step_keeps_verdict_invariant (attempts s)) (start w s) c);
      [|exact Hreach].
    split; [cbn; lia|exact I]. }
  destruct Hinv as [_ Hn]. rewrite HEND in Hn. exact Hn.
Qed.

Lemma step_keeps_budget_invariant M a0 l0 t0 c c' :
  a0 < M ->
  step env c = Some c' ->
  Facts.budget_invariant env M a0 l0 t0 c ->
  Facts.budget_invariant env M a0 l0 t0 c'.
Proof.
  intros Hleft. destruct c as [[n w] s]. unfold Facts.budget_invariant.
  cbn [node_of state_of world_of fst snd]. intros Hstep Hinv. revert Hstep Hinv.
  destruct n; cbn [step]; [| | | | | | |discriminate].
  - node_cases; intros [= <-]; cbn; intros (HM & Ha & HC & HT & Hinit & Hn);
      try (assert (Hz := Hinit ltac:(discriminate)));
      repeat apply conj; intros; try lia; try congruence; try discriminate.
  - node_cases; intros [= <-]; cbn; intros (HM & Ha & HC & HT & Hinit & Hn);
      try (assert (Hz := Hinit ltac:(discriminate)));
      repeat apply conj; intros; try lia; try congruence; try discriminate.
  - node_cases; intros [= <-]; cbn; intros (HM & Ha & HC & HT & Hinit & Hn);
      try (assert (Hz := Hinit ltac:(discriminate)));
      repeat apply conj; intros; try lia; try congruence; try discriminate.
  - node_cases; intros [= <-]; cbn;
      intros (HM & Ha & HC & HT & Hinit & Hn1 & Hn2 & Hn3);
      try (assert (Hz := Hinit ltac:(discriminate)));
      repeat apply conj; intros; try lia; try congruence; try discriminate;
      try (specialize (Hn2 ltac:(assumption)); lia).
  - node_cases; intros [= <-]; cbn [node_of state_of world_of fst snd];
      unfold should_continue_repair; cbn;
      intros (HM & Ha & HC & HT & Hinit & Hn1 & Hn2 & Hn3);
      try (assert (Hz := Hinit ltac:(discriminate))).
    + repeat apply conj; intros; try lia; try congruence; try discriminate.
    + destruct (String.eqb_spec (error_message s) "") as [E|N]; cbn.
      * specialize (Hn2 E). destruct (output_passes _); cbn.
        -- repeat apply conj; intros; try lia; try congruence.
        -- destruct (Z.leb_spec (max_attempts s) (attempts s));
             repeat apply conj; intros; try lia; try congruence.
      * repeat apply conj; intros; try lia; try congruence.
  - node_cases; intros [= <-]; cbn; intros (HM & Ha & HC & HT & Hinit & Hn);
      try (assert (Hz := Hinit ltac:(discriminate)));
      repeat apply conj; intros; try lia; try congruence; try discriminate.
  - unfold finish_failure_node. intros [= <-]. cbn.
    intros (HM & Ha & HC & HT & Hinit & Hn).
    repeat apply conj; intros; try lia; try congruence; auto.
Qed.

(** With some budget left at the start, a run calls the model at most
    [max_attempts - attempts] times, counts no attempt without a call of the
    model, and runs the test harness at most once more than it calls the
    model. *)
Theorem model_calls_within_budget (w : World) (s : APRState) (c : config) :
  attempts s < max_attempts s ->
  reachable env (start w s) c ->
  let calls := Z.of_nat (llm_calls (world_of c)) - Z.of_nat (llm_calls w) in
  let runs := Z.of_nat (test_runs (world_of c)) - Z.of_nat (test_runs w) in
  0 <= attempts (state_of c) - attempts s <= calls
  /\ calls <= max_attempts s - attempts s
  /\ 0 <= runs <= calls + 1.
Proof.
  intros Hbudget Hreach.
  assert (Hinv : Facts.budget_invariant env (max_attempts s) (attempts s)
                   (llm_calls w) (test_runs w) c).
  { apply (invariant_reachable env _
             (fun a b => step_keeps_budget_invariant (max_attempts s) (attempts s)
                           (llm_calls w) (test_runs w) a b Hbudget)
             (start w s) c); [|exact Hreach].
    unfold Facts.budget_invariant. cbn. repeat apply conj; intros; lia. }
  unfold Facts.budget_invariant in Hinv. cbn zeta in *.
  destruct Hinv as (HM & Ha & HC & HT & _ & Hn).
  destruct (node_of c); lia.
Qed.

(** *** The files *)

Lemma step_files c c' :
  step env c = Some c' ->
  (forall p, p <> file_path (state_of c) ->
             files (world_of c') !! p = files (world_of c) !! p)
  /\ ((forall raw, files (world_of c) !! file_path (state_of c) <> Some (File raw)) ->
      files (world_of c') = files (world_of c))
  /\ (node_of c <> apply_patch -> files (world_of c') = files (world_of c)).
Proof.
  destruct c as [[n w] s]. cbn [node_of state_of world_of fst snd].
  destruct n; cbn [step]; [| | | | | | |discriminate].
  - node_cases; intros [= <-]; cbn; auto.
  - node_cases; intros [= <-]; cbn; auto.
  - node_cases; intros [= <-]; cbn; auto.
  - unfold apply_patch_node, catch, initialize_tools_and_llm.
    destruct (init_error env); [intros [= <-]; cbn; auto|].
    pose proof (apply_patch_call_cases (files w) (file_path s)
                  (error_line_no s) (patch_line s)) as Hw.
    destruct (ApplyPatchTool_call (files w) (file_path s) (error_line_no s)
                (patch_line s)) as [[e|code] fs'];
      cbn [fst snd] in Hw; intros [= <-]; cbn.
    + destruct Hw as [_ ->]. repeat apply conj; auto.
    + destruct Hw as (Hother & -> & raw & Hraw).
      repeat apply conj; [exact Hother| |intros H; contradiction].
      intros Hnone. destruct (Hnone raw Hraw).
  - node_cases; intros [= <-]; cbn; auto.
  - node_cases; intros [= <-]; cbn; auto.
  - unfold finish_failure_node. intros [= <-]. cbn. auto.
Qed.

(** A run writes to no path but the one of the file under repair, and
    writes nothing at all when that path holds no readable file: a missing
    file is never created. *)
Theorem only_the_target_file_is_written (w : World) (s : APRState) (c : config) :
  reachable env (start w s) c ->
  (forall p, p <> file_path s -> files (world_of c) !! p = files w !! p)
  /\ ((forall raw, files w !! file_path s <> Some (File raw)) ->
      files (world_of c) = files w).
Proof.
  intros Hreach.
  pose (P := fun c : config =>
               file_path (state_of c) = file_path s
               /\ (forall p, p <> file_path s ->
                             files (world_of c) !! p = files w !! p)
               /\ ((forall raw, files w !! file_path s <> Some (File raw)) ->
                   files (world_of c) = files w)).
  assert (HP : P c).
  { apply (invariant_reachable env P) with (c0 := start w s); [|split; auto|exact Hreach].
    intros x y Hxy (Hf & Hother & Hnone).
    pose proof (step_frame_config env x) as Hfr. rewrite Hxy in Hfr.
    destruct Hfr as (_ & _ & Hf' & _).
    destruct (step_files x y Hxy) as (Ho & Hn & _).
    rewrite Hf in Ho, Hn.
    split; [congruence|]. split.
    - intros p Hp. rewrite Ho by exact Hp. apply Hother, Hp.
    - intros Hmiss. specialize (Hnone Hmiss). rewrite Hn; [exact Hnone|].
      rewrite Hnone. exact Hmiss. }
  destruct HP as (_ & H1 & H2). split; assumption.
Qed.

Lemma step_keeps_sync_invariant c c' :
  step env c = Some c' -> Facts.sync_invariant c -> Facts.sync_invariant c'.
Proof.
  destruct c as [[n w] s]. unfold Facts.sync_invariant, Facts.synced.
  cbn [node_of state_of world_of fst snd].
  destruct n; cbn [step]; [| | | | | | |discriminate].
  - node_cases; intros [= <-]; cbn; auto.
  - node_cases; intros [= <-]; cbn; auto.
  - node_cases; intros [= <-]; cbn; auto.
  - unfold apply_patch_node, catch, initialize_tools_and_llm.
    destruct (init_error env); [intros [= <-]; cbn; intros _ H; discriminate H|].
    pose proof (apply_patch_call_cases (files w) (file_path s)
                  (error_line_no s) (patch_line s)) as Hw.
    destruct (ApplyPatchTool_call (files w) (file_path s) (error_line_no s)
                (patch_line s)) as [[e|code] fs'];
      cbn [fst snd] in Hw; intros [= <-]; cbn.
    + intros _ H. discriminate H.
    + intros _ _. destruct Hw as (_ & -> & _). apply lookup_insert_eq.
  - node_cases; intros [= <-]; cbn [node_of state_of world_of fst snd];
      unfold should_continue_repair; cbn.
    + intros _. exact I.
    + intros Hsync.
      destruct (String.eqb_spec (error_message s) "") as [E|N]; cbn; [|exact I].
      destruct (output_passes _); cbn; [exact (Hsync E)|].
      destruct (max_attempts s <=? attempts s); exact I.
  - node_cases; intros [= <-]; cbn; [intros _ H; discriminate H|auto].
  - unfold finish_failure_node. intros [= <-]. cbn. intros _ H. discriminate H.
Qed.

(** When a run ends in success, the file under repair holds exactly the
    session's current code. *)
Theorem success_leaves_current_code_on_disk (w : World) (s : APRState) (c : config) :
  reachable env (start w s) c -> node_of c = END ->
  success (state_of c) = true ->
  files (world_of c) !! file_path (state_of c)
  = Some (File (current_code (state_of c))).
Proof.
  intros Hreach HEND Hsucc.
  assert (Hinv : Facts.sync_invariant c).
  { apply (invariant_reachable env Facts.sync_invariant step_keeps_sync_invariant
             (start w s) c); [exact I|exact Hreach]. }
  unfold Facts.sync_invariant in Hinv. rewrite HEND in Hinv. exact (Hinv Hsucc).
Qed.

End Verdict.

(** *** The further theorems on the sample sessions *)

Lemma prompt_carries_bounded_output_tail_witness :
  String.length (test_output Demo.session_with_long_report) = 660%nat
  /\ String.length
       (pi_test_output (prompt_input_of Demo.session_with_long_report))
     = 500%nat
  /\ pi_test_output (prompt_input_of Demo.session_with_long_report)
     = "case" ++ nl ++ String.concat "" (List.repeat ("FAIL: case" ++ nl) 45).
Proof.
  split; [reflexivity|]. split; [|reflexivity].
  refine (proj1 (proj1 (proj2 (proj2 (proj2
            (prompt_carries_bounded_output_tail Demo.session_with_long_report))))
            _)).
  vm_compute. lia.
Defined.

Lemma session_constants_witness :
  original_code
    (state_of (exec 6 Demo.env_first_patch_passes
                 (start (Demo.world Demo.fs) (Demo.initial_state "prog.py"))))
  = Demo.prog_text.
Proof.
  refine (proj2 (proj2 (proj2 (session_constants Demo.env_first_patch_passes
                                 (Demo.world Demo.fs)
                                 (Demo.initial_state "prog.py") 6)))
            Demo.prog_text _ _ _).
  - reflexivity.
  - reflexivity.
  - lia.
Defined.

Lemma fault_line_fixed_after_localize_witness :
  error_line_no
    (state_of (exec 12 Demo.env_always_failing
                 (start (Demo.world Demo.fs) (Demo.initial_state "prog.py"))))
  = error_line_no
      (state_of (exec 2 Demo.env_always_failing
                   (start (Demo.world Demo.fs) (Demo.initial_state "prog.py")))).
Proof.
  refine (proj1 (fault_line_fixed_after_localize Demo.env_always_failing
                   (Demo.world Demo.fs) (Demo.initial_state "prog.py") 12 _)).
  lia.
Defined.

Lemma system_error_never_cleared_witness :
  error_message
    (state_of (exec 6 Demo.env_always_failing
                 (start (Demo.world ∅) (Demo.initial_state "prog.py")))) <> "".
Proof.
  refine (system_error_never_cleared Demo.env_always_failing (Demo.world ∅)
            (Demo.initial_state "prog.py") 1 6 _ _).
  - lia.
  - vm_compute. discriminate.
Defined.

Lemma verdict_reflects_last_validation_witness :
  error_message
    (state_of (exec 6 Demo.env_first_patch_passes
                 (start (Demo.world Demo.fs) (Demo.initial_state "prog.py")))) = ""
  /\ tests_passed
       (state_of (exec 6 Demo.env_first_patch_passes
                    (start (Demo.world Demo.fs) (Demo.initial_state "prog.py"))))
     = true
  /\ attempts (Demo.initial_state "prog.py") + 1
     <= attempts
          (state_of (exec 6 Demo.env_first_patch_passes
                       (start (Demo.world Demo.fs) (Demo.initial_state "prog.py")))).
Proof.
  exact (verdict_reflects_last_validation Demo.env_first_patch_passes
           (Demo.world Demo.fs) (Demo.initial_state "prog.py")
           (exec 6 Demo.env_first_patch_passes
              (start (Demo.world Demo.fs) (Demo.initial_state "prog.py")))
           (reachable_exec _ 6 _) eq_refl).
Defined.

Lemma model_calls_within_budget_witness :
  Z.of_nat
    (llm_calls
       (world_of (exec 12 Demo.env_always_failing
                    (start (Demo.world Demo.fs) (Demo.initial_state "prog.py")))))
  - Z.of_nat (llm_calls (Demo.world Demo.fs))
  <= max_attempts (Demo.initial_state "prog.py")
     - attempts (Demo.initial_state "prog.py").
Proof.
  refine (proj1 (proj2 (model_calls_within_budget Demo.env_always_failing
                          (Demo.world Demo.fs) (Demo.initial_state "prog.py")
                          (exec 12 Demo.env_always_failing
                             (start (Demo.world Demo.fs)
                                (Demo.initial_state "prog.py")))
                          _ (reachable_exec _ 12 _)))).
  vm_compute. reflexivity.
Defined.

Lemma only_the_target_file_is_written_witness :
  files
    (world_of (exec 12 Demo.env_always_failing
                 (start (Demo.world Demo.fs) (Demo.initial_state "prog.py"))))
  !! "other.py"
  = files (Demo.world Demo.fs) !! "other.py".
Proof.
  refine (proj1 (only_the_target_file_is_written Demo.env_always_failing
                   (Demo.world Demo.fs) (Demo.initial_state "prog.py")
                   (exec 12 Demo.env_always_failing
                      (start (Demo.world Demo.fs) (Demo.initial_state "prog.py")))
                   (reachable_exec _ 12 _)) "other.py" _).
  discriminate.
Defined.

Lemma success_leaves_current_code_on_disk_witness :
  files
    (world_of (exec 6 Demo.env_first_patch_passes
                 (start (Demo.world Demo.fs) (Demo.initial_state "prog.py"))))
  !! file_path
       (state_of (exec 6 Demo.env_first_patch_passes
                    (start (Demo.world Demo.fs) (Demo.initial_state "prog.py"))))
  = Some (File (current_code
                  (state_of (exec 6 Demo.env_first_patch_passes
                               (start (Demo.world Demo.fs)
                                  (Demo.initial_state "prog.py")))))).
Proof.
  refine (success_leaves_current_code_on_disk Demo.env_first_patch_passes
            (Demo.world Demo.fs) (Demo.initial_state "prog.py")
            (exec 6 Demo.env_first_patch_passes
               (start (Demo.world Demo.fs) (Demo.initial_state "prog.py")))
            (reachable_exec _ 6 _) _ _); vm_compute; reflexivity.
Defined.
